(** * script_detector: a shallow embedding of [ScriptDetector]

    The module classifies short tokens by Unicode block, keeps a
    word -> language cache that is flushed to a JSON file once per frame,
    and annotates pandas frames column by column.

    Conventions of the embedding.
    - A Python [str] is the list of its code points ([ord] of every
      character), for tokens, column names, paths and language codes alike.
    - A Python [int] is a [Z].
    - The score is the quotient of two small integers.  It is kept as a
      rational in lowest terms ([Qred]); for [sample_chars] below [2^26] two
      such quotients are equal as rationals exactly when Python's correctly
      rounded floats are equal, and [0.0], [0.5] and [1.0] are exact.
    - [counts] is a [dict]: insertion ordered, so it is an association list
      whose keys appear in the order of their first assignment.
    - [self._cache] is only looked up and assigned by key: a [gmap].
    - Exceptions are values of [exn]; a method that mutates [self], the
      frame store or the disk is a function in the monad [M].
    - The state says which pandas is installed, if any: under pandas 2
      [astype(str)] turns a missing value into text, under pandas 3 it
      leaves it missing.
    - Writing the snapshot can fail: the file may not open, and a lone
      surrogate in the cache does not encode to UTF-8. *)

From Stdlib Require Import Strings.String Strings.Ascii.
From Stdlib Require Import ZArith NArith QArith Qreduction Lia List.
From stdpp Require Import base option list gmap.
Import ListNotations.

#[local] Open Scope Z_scope.
#[local] Open Scope list_scope.

(** ** Strings *)

Abbreviation pystr := (list N).

(** Code points of an ASCII literal, to write ["hi"], ["_lang"] and the like. *)
Definition py (s : string) : pystr :=
  List.map (fun a => N.of_nat (nat_of_ascii a)) (list_ascii_of_string s).

Arguments py s%_string.

(** Truthiness of a [str | None] value: [None] and [""] are false. *)
Definition truthy (s : option pystr) : bool :=
  match s with
  | None => false
  | Some [] => false
  | Some (_ :: _) => true
  end.

(** ** 1. Unicode-block look-up table (inclusive start, exclusive stop) *)

Definition range := (N * N)%type.

Definition in_range (cp : N) (r : range) : bool :=
  ((fst r <=? cp) && (cp <? snd r))%N.

Definition UNICODE_RANGES : list (pystr * list range) :=
  [ (py "hi",  [(0x0900, 0x0980)%N]);
    (py "gu",  [(0x0A80, 0x0B00)%N]);
    (py "pa",  [(0x0A00, 0x0A80)%N]);
    (py "bn",  [(0x0980, 0x0A00)%N]);
    (py "or",  [(0x0B00, 0x0B80)%N]);
    (py "tam", [(0x0B80, 0x0C00)%N]);
    (py "te",  [(0x0C00, 0x0C80)%N]);
    (py "kn",  [(0x0C80, 0x0D00)%N]);
    (py "ml",  [(0x0D00, 0x0D80)%N]);
    (py "ur",  [(0x0600, 0x0700)%N; (0x0750, 0x0780)%N]);
    (py "en",  [(0x0000, 0x0080)%N; (0x0080, 0x0100)%N]) ].

(** [string.printable] of the Python library: digits, letters, punctuation
    and the six whitespace characters, in the library's order. *)
Definition string_printable : pystr :=
  [ 48; 49; 50; 51; 52; 53; 54; 55; 56; 57;
    97; 98; 99; 100; 101; 102; 103; 104; 105; 106; 107; 108; 109; 110; 111;
    112; 113; 114; 115; 116; 117; 118; 119; 120; 121; 122;
    65; 66; 67; 68; 69; 70; 71; 72; 73; 74; 75; 76; 77; 78; 79; 80; 81; 82;
    83; 84; 85; 86; 87; 88; 89; 90;
    33; 34; 35; 36; 37; 38; 39; 40; 41; 42; 43; 44; 45; 46; 47;
    58; 59; 60; 61; 62; 63; 64; 91; 92; 93; 94; 95; 96; 123; 124; 125; 126;
    32; 9; 10; 13; 11; 12 ]%N.

(** [_ASCII = set(map(ord, string.printable))], used through [cp in _ASCII]. *)
Definition _ASCII (cp : N) : bool := existsb (N.eqb cp) string_printable.

(** ** 2. Low-level helpers *)

(** The two nested [for] loops of [_char_lang]: the first language, in table
    order, one of whose ranges holds [cp]. *)
Fixpoint first_lang (table : list (pystr * list range)) (cp : N) : option pystr :=
  match table with
  | [] => None
  | (lang, ranges) :: rest =>
      if existsb (in_range cp) ranges then Some lang else first_lang rest cp
  end.

Definition _char_lang (cp : N) : option pystr :=
  if _ASCII cp then Some (py "en") else first_lang UNICODE_RANGES cp.

(** The test of [_iter_significant]: spaces, controls and U+2000..U+200F are
    skipped. *)
Definition significant (cp : N) : bool :=
  negb ((cp <=? 0x0020) || ((0x2000 <=? cp) && (cp <=? 0x200F)))%N.

Definition _iter_significant (text : pystr) : list N :=
  List.filter significant text.

(** ** The [counts] dictionary *)

Definition dict := (list (pystr * Z)).

Definition pystr_eqb (a b : pystr) : bool := bool_decide (a = b).

Fixpoint dict_get (d : dict) (k : pystr) (default : Z) : Z :=
  match d with
  | [] => default
  | (k', v) :: rest => if pystr_eqb k' k then v else dict_get rest k default
  end.

(** [d[k] = v]: an existing key keeps its place, a new key goes last. *)
Fixpoint dict_set (d : dict) (k : pystr) (v : Z) : dict :=
  match d with
  | [] => [(k, v)]
  | (k', v') :: rest =>
      if pystr_eqb k' k then (k', v) :: rest else (k', v') :: dict_set rest k v
  end.

Definition dict_keys (d : dict) : list pystr := List.map fst d.

(** [max(iterable, key=f)] once the first item is taken: a later item
    replaces the best one only when its key is strictly greater. *)
Fixpoint max_from (f : pystr -> Z) (best : pystr) (rest : list pystr) : pystr :=
  match rest with
  | [] => best
  | k :: rest' => if f best <? f k then max_from f k rest' else max_from f best rest'
  end.

(** ** 3. Main class *)

Record ScriptDetector := mkScriptDetector {
  sample_chars : Z;
  default_code : pystr;
  cache_file : option pystr;
  _cache : gmap pystr pystr;
  _dirty : bool
}.

(** The scanning loop of [detect], lines 133-139, over the code points that
    [_iter_significant] yields.  [if lang:] holds for a non-empty code. *)
Fixpoint scan (n : Z) (cps : list N) (counts : dict) (total : Z) : dict * Z :=
  match cps with
  | [] => (counts, total)
  | cp :: rest =>
      let total := total + 1 in
      let counts :=
        match _char_lang cp with
        | Some ((_ :: _) as lang) => dict_set counts lang (dict_get counts lang 0 + 1)
        | _ => counts
        end in
      if n <=? total then (counts, total) else scan n rest counts total
  end.

(** [counts[winner] / total]. *)
Definition ratio (c total : Z) : Q := Qred (Qmake c (Z.to_pos total)).

(** Lines 131-143: the scan and the choice of the winner.  The second
    component is [total], the number of characters handed to [_char_lang]. *)
Definition detect_scan (self : ScriptDetector) (t : pystr) : (pystr * Q) * Z :=
  let '(counts, total) := scan (sample_chars self) (_iter_significant t) [] 0 in
  match dict_keys counts with
  | [] => ((default_code self, 0%Q), total)
  | k :: ks =>
      let winner := max_from (fun l => dict_get counts l 0) k ks in
      ((winner, ratio (dict_get counts winner 0) total), total)
  end.

(** [detect], with the number of characters it inspected: none when the
    token is empty or absent, none on a cache hit. *)
Definition detect_run (self : ScriptDetector) (text : option pystr) : (pystr * Q) * Z :=
  match text with
  | Some ((_ :: _) as t) =>
      match _cache self !! t with
      | Some ((_ :: _) as cached) => ((cached, 1%Q), 0)
      | _ => detect_scan self t
      end
  | _ => ((default_code self, 0%Q), 0)
  end.

Definition detect (self : ScriptDetector) (text : option pystr) : pystr * Q :=
  fst (detect_run self text).

Definition inspected (self : ScriptDetector) (text : option pystr) : Z :=
  snd (detect_run self text).

(** ** The world around the detector *)

Inductive exn :=
  | ImportError
  | KeyError (key : pystr)
  | TypeError
  | UnicodeDecodeError
  | JSONDecodeError
  | UnicodeEncodeError
  | OSError.

(** What [json.loads] returns.  Of the JSON values only those the cache
    code is followed on are kept: an object whose values are strings, and
    the scalars, which [dict.update] refuses. *)
Inductive json :=
  | JNull
  | JBool (b : bool)
  | JInt (n : Z)
  | JObject (m : gmap pystr pystr).

(** A file on disk, by what [read_text] and [json.loads] make of it. *)
Inductive file :=
  | Undecodable          (* bytes that are not UTF-8 *)
  | Malformed            (* text that is not JSON *)
  | Document (v : json). (* text of the JSON value [v] *)

(** A cell of a frame: a string, a missing value ([NaN] or [None]), or any
    other object, kept by its [str()] image. *)
Inductive cell :=
  | CStr (s : pystr)
  | CNaN
  | CNone
  | COther (repr : pystr).

(** The pandas that is installed.  The two major versions differ, for this
    module, in one place: [astype(str)] turns a missing value into the text
    ["nan"] or ["None"] under pandas 2 and leaves it missing under pandas 3. *)
Inductive pandas := Pandas2 | Pandas3.

(** An element of a column after [astype(str)]. *)
Inductive value :=
  | Text (s : pystr)
  | Missing.

#[export] Instance value_eq_dec : EqDecision value.
Proof. solve_decision. Defined.

Definition astype_str (version : pandas) (c : cell) : value :=
  match c with
  | CStr s => Text s
  | COther r => Text r
  | CNaN => match version with Pandas2 => Text (py "nan") | Pandas3 => Missing end
  | CNone => match version with Pandas2 => Text (py "None") | Pandas3 => Missing end
  end.

(** A [DataFrame] is an object in a store; no property below depends on the
    order of its columns. *)
Abbreviation loc := N.
Abbreviation frame := (gmap pystr (list cell)).

(** The history of the run: bookkeeping only, no operation reads it.
    [EvDetect] is a call of [detect] on a string, [EvWrite] a snapshot that
    was written in full. *)
Inductive event :=
  | EvDetect (text : pystr)
  | EvInsert (phrase lang : pystr)
  | EvAssign (df : loc) (col : pystr)
  | EvWrite (path : pystr) (snapshot : gmap pystr pystr).

Record state := mkState {
  self : ScriptDetector;
  pd : option pandas;              (* [None] when [pd is None] *)
  frames : loc -> frame;
  disk : gmap pystr file;
  unwritable : pystr -> bool;      (* paths [open(path, "w")] refuses *)
  history : list event
}.

(** State and exceptions: a raised exception keeps the state reached. *)
Definition M (A : Type) : Type := state -> (exn + A) * state.

Definition raise {A} (e : exn) : M A := fun st => (inl e, st).

#[export] Instance M_ret : MRet M := fun A a st => (inr a, st).

#[export] Instance M_bind : MBind M := fun A B k m st =>
  match m st with
  | (inr a, st') => k a st'
  | (inl e, st') => (inl e, st')
  end.

Definition get : M state := fun st => (inr st, st).

Definition modify (f : state -> state) : M unit := fun st => (inr tt, f st).

Definition log (e : event) (st : state) : state :=
  mkState (self st) (pd st) (frames st) (disk st) (unwritable st) (history st ++ [e]).

Definition with_self (d : ScriptDetector) (st : state) : state :=
  mkState d (pd st) (frames st) (disk st) (unwritable st) (history st).

Definition with_file (path : pystr) (f : file) (st : state) : state :=
  mkState (self st) (pd st) (frames st) (<[path := f]> (disk st)) (unwritable st)
    (history st).

Definition with_column (df : loc) (col : pystr) (ser : list cell) (st : state) : state :=
  mkState (self st) (pd st)
    (fun l => if bool_decide (l = df) then <[col := ser]> (frames st l) else frames st l)
    (disk st) (unwritable st) (history st).

Definition record (e : event) : M unit := modify (log e).

Definition set_self (d : ScriptDetector) : M unit := modify (with_self d).

(** [for x in xs: body(x)] *)
Fixpoint for_each {A} (xs : list A) (body : A -> M unit) : M unit :=
  match xs with
  | [] => mret tt
  | x :: rest => body x;; for_each rest body
  end.

(** ** Lifecycle *)

(** [self._cache.update(v)]: the entries of [v] win. *)
Definition dict_update (cache : gmap pystr pystr) (v : json) : exn + gmap pystr pystr :=
  match v with
  | JObject m => inr (m ∪ cache)
  | JNull | JBool _ | JInt _ => inl TypeError
  end.

Definition read_text (f : file) : exn + file :=
  match f with
  | Undecodable => inl UnicodeDecodeError
  | _ => inr f
  end.

Definition json_loads (f : file) : exn + json :=
  match f with
  | Document v => inr v
  | _ => inl JSONDecodeError
  end.

(** [__post_init__] on a fresh object: [_cache] is empty and [_dirty] false.
    Only [JSONDecodeError] is caught. *)
Definition __post_init__ (d : ScriptDetector) (files : gmap pystr file) : exn + ScriptDetector :=
  match cache_file d with
  | Some ((_ :: _) as path) =>
      match files !! path with
      | Some f =>
          match read_text f with
          | inl e => inl e
          | inr text =>
              match json_loads text with
              | inl JSONDecodeError => inr d
              | inl e => inl e
              | inr v =>
                  match dict_update (_cache d) v with
                  | inl e => inl e
                  | inr c =>
                      inr (mkScriptDetector (sample_chars d) (default_code d)
                             (cache_file d) c (_dirty d))
                  end
              end
          end
      | None => inr d
      end
  | _ => inr d
  end.

(** [ScriptDetector(sample_chars, default_code, cache_file)] *)
Definition new_ScriptDetector (n : Z) (code : pystr) (path : option pystr)
    (files : gmap pystr file) : exn + ScriptDetector :=
  __post_init__ (mkScriptDetector n code path ∅ false) files.

(** ** Cache helpers *)

(** [self._cache[phrase] = lang; self._dirty = True] *)
Definition inserted (phrase lang : pystr) (d : ScriptDetector) : ScriptDetector :=
  mkScriptDetector (sample_chars d) (default_code d) (cache_file d)
    (<[phrase := lang]> (_cache d)) true.

(** [self._dirty = False] *)
Definition flushed (d : ScriptDetector) : ScriptDetector :=
  mkScriptDetector (sample_chars d) (default_code d) (cache_file d) (_cache d) false.

Definition _add_to_cache (phrase lang : pystr) : M unit :=
  st ← get;
  set_self (inserted phrase lang (self st));;
  record (EvInsert phrase lang).

(** A lone surrogate, which UTF-8 does not encode. *)
Definition surrogate (cp : N) : bool := ((0xD800 <=? cp) && (cp <=? 0xDFFF))%N.

Definition encodable (s : pystr) : bool := forallb (fun cp => negb (surrogate cp)) s.

(** The keys and the values [json.dumps(..., ensure_ascii=False)] writes
    out as they are. *)
Definition encodable_cache (m : gmap pystr pystr) : bool :=
  bool_decide (map_Forall (fun k v => encodable k = true /\ encodable v = true) m).

(** [Path(path).write_text(json.dumps(snapshot, ...), encoding="utf-8")].
    Opening the file can fail (a missing directory, no permission): nothing
    is written.  Once the file is open it is empty; when the text does not
    encode, the write raises and leaves that empty file, which is no JSON. *)
Definition write_text (path : pystr) (snapshot : gmap pystr pystr) : M unit :=
  st ← get;
  if unwritable st path then raise OSError
  else if encodable_cache snapshot
  then modify (with_file path (Document (JObject snapshot)));;
       record (EvWrite path snapshot)
  else modify (with_file path Malformed);;
       raise UnicodeEncodeError.

Definition _flush_cache : M unit :=
  st ← get;
  let d := self st in
  match _dirty d, cache_file d with
  | true, Some ((_ :: _) as path) =>
      write_text path (_cache d);;
      set_self (flushed d)
  | _, _ => mret tt
  end.

(** ** pandas utilities *)

(** [Series.unique()]: the distinct values in order of first appearance. *)
Fixpoint unique_from {A} `{EqDecision A} (seen : list A) (l : list A) : list A :=
  match l with
  | [] => []
  | x :: rest =>
      if bool_decide (x ∈ seen) then unique_from seen rest
      else x :: unique_from (x :: seen) rest
  end.

Definition unique {A} `{EqDecision A} (l : list A) : list A := unique_from [] l.

(** [Series.map(lang_map)]: a value without an entry becomes NaN. *)
Definition series_map (lang_map : gmap pystr pystr) (ser : list value) : list cell :=
  List.map (fun v => match v with
                     | Text s => match lang_map !! s with Some l => CStr l | None => CNaN end
                     | Missing => CNaN
                     end) ser.

(** [df[col]] *)
Definition getitem (df : loc) (col : pystr) : M (list cell) :=
  st ← get;
  match frames st df !! col with
  | Some ser => mret ser
  | None => raise (KeyError col)
  end.

(** [df[col] = ser] *)
Definition setitem (df : loc) (col : pystr) (ser : list cell) : M unit :=
  modify (with_column df col ser);;
  record (EvAssign df col).

Definition call_detect (val : pystr) : M (pystr * Q) :=
  st ← get;
  record (EvDetect val);;
  mret (detect (self st) (Some val)).

(** The inner loop of [annotate_frame], lines 178-182.  On a missing
    value [detect] raises [TypeError]: the value is true, is no key of the
    cache, and cannot be iterated.  The test [score >= min_cache_score] is
    taken on rationals; the statements below hold for every threshold and
    for both outcomes of the test, except where they name the score [0.0],
    which floats compare exactly. *)
Fixpoint classify (uniques : list value) (lang_map : gmap pystr pystr)
    (auto_cache : bool) (min_cache_score : Q) : M (gmap pystr pystr) :=
  match uniques with
  | [] => mret lang_map
  | Missing :: _ => raise TypeError
  | Text val :: rest =>
      r ← call_detect val;
      let '(lang, score) := r in
      let lang_map := <[val := lang]> lang_map in
      (if auto_cache && Qle_bool min_cache_score score
       then _add_to_cache val lang else mret tt);;
      classify rest lang_map auto_cache min_cache_score
  end.

(** The body of the outer loop, lines 175-183. *)
Definition annotate_column (version : pandas) (df : loc) (auto_cache : bool)
    (min_cache_score : Q) (col : pystr) : M unit :=
  raw ← getitem df col;
  let ser := List.map (astype_str version) raw in
  let uniques := unique ser in
  lang_map ← classify uniques ∅ auto_cache min_cache_score;
  setitem df (col ++ py "_lang") (series_map lang_map ser).

Definition annotate_frame (df : loc) (columns : list pystr)
    (auto_cache : bool) (min_cache_score : Q) : M loc :=
  st ← get;
  match pd st with
  | None => raise ImportError
  | Some version =>
      for_each columns (annotate_column version df auto_cache min_cache_score);;
      (if auto_cache then _flush_cache else mret tt);;
      mret df
  end.

(** ** JSON / dict helper *)

(** The loop of [annotate_json], lines 241-245.  [record] is only read:
    [record.get(k, "")] for the text, [record[k]] for the phrase to cache;
    the labels go to the copy [out]. *)
Fixpoint annotate_keys (record : gmap pystr pystr) (keys : list pystr)
    (out : gmap pystr pystr) (auto_cache : bool) (min_cache_score : Q)
    : M (gmap pystr pystr) :=
  match keys with
  | [] => mret out
  | k :: rest =>
      r ← call_detect (default [] (record !! k));
      let '(lang, score) := r in
      (if auto_cache && Qle_bool min_cache_score score
       then match record !! k with
            | Some v => _add_to_cache v lang
            | None => raise (KeyError k)
            end
       else mret tt);;
      annotate_keys record rest (<[k ++ py "_lang" := lang]> out) auto_cache min_cache_score
  end.

Definition annotate_json (record : gmap pystr pystr) (keys : list pystr)
    (auto_cache : bool) (min_cache_score : Q) : M (gmap pystr pystr) :=
  out ← annotate_keys record keys record auto_cache min_cache_score;
  (if auto_cache then _flush_cache else mret tt);;
  mret out.

(** [__call__] *)
Definition __call__ (self : ScriptDetector) (text : option pystr) : pystr * Q :=
  detect self text.

(** ** Notions the statements use *)

(** The language a character is counted for: [_char_lang] followed by the
    test [if lang:]. *)
Definition lang_of (cp : N) : option pystr :=
  match _char_lang cp with
  | Some ((_ :: _) as lang) => Some lang
  | _ => None
  end.

(** [counts[lang] = counts.get(lang, 0) + 1] *)
Definition bump (counts : dict) (lang : pystr) : dict :=
  dict_set counts lang (dict_get counts lang 0 + 1).

Definition tally (counts : dict) (langs : list pystr) : dict :=
  fold_left bump langs counts.

(** How many characters the loop still takes when [total] are counted. *)
Definition window (n total : Z) : nat := Z.to_nat (Z.max 1 (n - total)).

(** The significant characters [detect] hands to [_char_lang]. *)
Definition sampled (self : ScriptDetector) (t : pystr) : list N :=
  take (window (sample_chars self) 0) (_iter_significant t).

(** The languages counted for a token, one per resolved character. *)
Definition counted (self : ScriptDetector) (t : pystr) : list pystr :=
  omap lang_of (sampled self t).

(** Number of occurrences of [l]. *)
Definition occurrences (l : pystr) (langs : list pystr) : Z :=
  Z.of_nat (length (List.filter (pystr_eqb l) langs)).

(** [cp] lies in one of the ranges the table declares for [lang]. *)
Definition in_lang (lang : pystr) (cp : N) : bool :=
  existsb (fun '(l, ranges) => pystr_eqb l lang && existsb (in_range cp) ranges)
          UNICODE_RANGES.

(** The winner as the specification words it: among the languages with the
    highest count, the one that comes first in the order of the table. *)
Definition highest (langs : list pystr) : Z :=
  fold_right Z.max 0 (List.map (fun l => occurrences l langs) (List.map fst UNICODE_RANGES)).

Definition table_order_winner (langs : list pystr) : option pystr :=
  List.find (fun l => occurrences l langs =? highest langs) (List.map fst UNICODE_RANGES).

(** A detector with the default parameters and no cache file. *)
Definition plain : ScriptDetector := mkScriptDetector 6 (py "en") None ∅ false.

Definition is_write (e : event) : bool :=
  match e with EvWrite _ _ => true | _ => false end.

Definition is_assign (e : event) : bool :=
  match e with EvAssign _ _ => true | _ => false end.

Definition is_detect (e : event) : bool :=
  match e with EvDetect _ => true | _ => false end.

(** The cache operations a caller can chain. *)
Inductive op :=
  | Insert (phrase lang : pystr)
  | Flush.

Definition run_op (o : op) : M unit :=
  match o with
  | Insert phrase lang => _add_to_cache phrase lang
  | Flush => _flush_cache
  end.

(** A caller that catches what an operation raises and goes on. *)
Definition attempt (m : M unit) : M unit := fun st => (inr tt, snd (m st)).

Definition run_ops (ops : list op) : M unit :=
  for_each ops (fun o => attempt (run_op o)).

(** An insert is in the history and no snapshot was written after it. *)
Definition unsaved (h : list event) : Prop :=
  exists pre phrase lang post,
    h = pre ++ EvInsert phrase lang :: post /\ Forall (fun e => is_write e = false) post.

(** The state after one round of the inner loop of [annotate_frame], when
    [detect] has answered [r] for [val]. *)
Definition after_detect (val : pystr) (r : pystr * Q) (auto_cache : bool)
    (min_cache_score : Q) (st : state) : state :=
  if auto_cache && Qle_bool min_cache_score (snd r)
  then log (EvInsert val (fst r))
         (with_self (inserted val (fst r) (self st)) (log (EvDetect val) st))
  else log (EvDetect val) st.

(** A store whose frames all hold two columns of one row. *)
Definition people : frame :=
  {[ py "Name" := [CStr (py "Ram")];
     py "City" := [CStr [0x92A; 0x941; 0x923; 0x947]%N] ]}.

Definition registry : state :=
  mkState plain (Some Pandas2) (fun _ => people) ∅ (fun _ => false) [].

(** [astype(str)] gave a string. *)
Definition is_text (v : value) : bool :=
  match v with Text _ => true | Missing => false end.

(** The strings of a column after [astype(str)]. *)
Definition texts (version : pandas) (raw : list cell) : list pystr :=
  omap (fun c => match astype_str version c with Text s => Some s | Missing => None end) raw.


(** The labels of a column, for the detector [d]. *)
Definition labels (d : ScriptDetector) (version : pandas) (raw : list cell) : list cell :=
  List.map (fun c => match astype_str version c with
                     | Text s => CStr (fst (detect d (Some s)))
                     | Missing => CNaN
                     end) raw.

(** The frame [df] has the column [col], and [astype(str)] leaves no missing
    value in it. *)
Definition readable (version : pandas) (st : state) (df : loc) (col : pystr) : Prop :=
  exists raw, frames st df !! col = Some raw /\
    Forall (fun c => is_text (astype_str version c) = true) raw.

(** The flush at the end of a call failed: the file could not be opened or
    the cache could not be encoded. *)
Definition write_failed {A} (r : exn + A) : Prop :=
  r = inl OSError \/ r = inl UnicodeEncodeError.

(** What a run of [detect] calls and inserts of their own answers keeps:
    the parameters, the language [detect] gives to every token, the disk; and
    the detector is untouched unless it is dirty. *)
Definition evolves (st st' : state) : Prop :=
  sample_chars (self st') = sample_chars (self st) /\
  default_code (self st') = default_code (self st) /\
  cache_file (self st') = cache_file (self st) /\
  (forall text, fst (detect (self st') text) = fst (detect (self st) text)) /\
  (self st' = self st \/ _dirty (self st') = true) /\
  (_dirty (self st) = true -> _dirty (self st') = true) /\
  disk st' = disk st /\ pd st' = pd st /\ unwritable st' = unwritable st.

(** The same store with a detector that has a cache file and an entry not
    yet written. *)
Definition unsaved_registry : state :=
  with_self (mkScriptDetector 6 (py "en") (Some (py "c.json")) {[ py "Ram" := py "en" ]} true)
    registry.

(** A store under pandas 3 whose frame has a missing name. *)
Definition people_nan : frame :=
  {[ py "Name" := [CStr (py "Ram"); CNaN] ]}.

Definition registry_nan : state :=
  mkState plain (Some Pandas3) (fun _ => people_nan) ∅ (fun _ => false) [].

(** The invariant of the dirty flag. *)
Definition dirty_tracks (st : state) : Prop :=
  _dirty (self st) = true <-> unsaved (history st).

Definition with_cache (c : gmap pystr pystr) : ScriptDetector :=
  mkScriptDetector 6 (py "en") None c false.

(** Three Latin letters and three Devanagari letters, in both orders. *)
Definition latin_nagari : pystr := [0x61; 0x62; 0x63; 0x905; 0x906; 0x907]%N.
Definition nagari_latin : pystr := [0x905; 0x906; 0x907; 0x61; 0x62; 0x63]%N.

(** Six Latin letters followed by a Devanagari one. *)
Definition latin6_nagari : pystr := py "Ramesh" ++ [0x905]%N.

(** * Properties *)

(** ** The counter dictionary *)

Lemma pystr_eqb_eq a b : pystr_eqb a b = true <-> a = b.
Proof. unfold pystr_eqb. apply bool_decide_eq_true. Qed.

Lemma pystr_eqb_refl a : pystr_eqb a a = true.
Proof. by apply pystr_eqb_eq. Qed.

Lemma pystr_eqb_neq a b : a <> b -> pystr_eqb a b = false.
Proof. intros H. unfold pystr_eqb. by apply bool_decide_eq_false. Qed.

Lemma dict_get_set_eq d k v x : dict_get (dict_set d k v) k x = v.
Proof.
  induction d as [|[k' v'] d IH]; simpl.
  - by rewrite pystr_eqb_refl.
  - destruct (pystr_eqb k' k) eqn:E; simpl; rewrite E; [done | apply IH].
Qed.

Lemma dict_get_set_ne d k k' v x : k <> k' -> dict_get (dict_set d k v) k' x = dict_get d k' x.
Proof.
  intros Hne. induction d as [|[k0 v0] d IH]; simpl.
  - by rewrite pystr_eqb_neq.
  - destruct (pystr_eqb k0 k) eqn:E; simpl.
    + apply pystr_eqb_eq in E as ->. by rewrite pystr_eqb_neq.
    + by rewrite IH.
Qed.

Lemma dict_keys_set_old d k v : k ∈ dict_keys d -> dict_keys (dict_set d k v) = dict_keys d.
Proof.
  induction d as [|[k0 v0] d IH]; simpl; intros Hin.
  - by apply elem_of_nil in Hin.
  - destruct (pystr_eqb k0 k) eqn:E; simpl; [done |].
    f_equal. apply IH. apply elem_of_cons in Hin as [->|Hin]; [|done].
    by rewrite pystr_eqb_refl in E.
Qed.

Lemma dict_keys_set_new d k v : k ∉ dict_keys d -> dict_keys (dict_set d k v) = dict_keys d ++ [k].
Proof.
  induction d as [|[k0 v0] d IH]; simpl; intros Hin; [done |].
  destruct (pystr_eqb k0 k) eqn:E; simpl.
  - apply pystr_eqb_eq in E as ->. exfalso. apply Hin. left.
  - f_equal. apply IH. intros H. apply Hin. by right.
Qed.

Lemma dict_get_absent d k x : k ∉ dict_keys d -> dict_get d k x = x.
Proof.
  induction d as [|[k0 v0] d IH]; simpl; intros Hin; [done |].
  destruct (pystr_eqb k0 k) eqn:E.
  - apply pystr_eqb_eq in E as ->. exfalso. apply Hin. left.
  - apply IH. intros H. apply Hin. by right.
Qed.

(** ** The loop is a tally of a prefix *)

Lemma tally_snoc counts langs l : tally counts (langs ++ [l]) = bump (tally counts langs) l.
Proof. unfold tally. by rewrite fold_left_app. Qed.

Lemma scan_take n cps : forall counts total,
  scan n cps counts total =
    (tally counts (omap lang_of (take (window n total) cps)),
     total + Z.of_nat (length (take (window n total) cps))).
Proof.
  induction cps as [|cp rest IH]; intros counts total.
  - rewrite take_nil. simpl. f_equal. lia.
  - simpl scan. destruct (n <=? total + 1) eqn:E.
    + apply Z.leb_le in E.
      replace (window n total) with 1%nat by (unfold window; lia).
      simpl. unfold lang_of. destruct (_char_lang cp) as [[|c l]|]; simpl; f_equal; lia.
    + apply Z.leb_gt in E. rewrite IH.
      replace (window n total) with (S (window n (total + 1))) by (unfold window; lia).
      simpl take. cbn [length]. f_equal; [|lia].
      simpl omap. unfold lang_of at 2. destruct (_char_lang cp) as [[|c l]|]; done.
Qed.

(** ** The range table *)

Lemma in_range_true cp a b : in_range cp (a, b) = true <-> (a <= cp < b)%N.
Proof.
  unfold in_range. simpl. rewrite andb_true_iff, N.leb_le, N.ltb_lt. tauto.
Qed.

Lemma in_range_false cp a b : in_range cp (a, b) = false <-> (cp < a \/ b <= cp)%N.
Proof.
  unfold in_range. simpl. rewrite andb_false_iff, N.leb_gt, N.ltb_ge. tauto.
Qed.

Lemma _ASCII_below cp : _ASCII cp = true -> (cp < 127)%N.
Proof.
  unfold _ASCII. intros H. apply existsb_exists in H as (x & Hin & Heq).
  apply N.eqb_eq in Heq as <-.
  assert (Hall : Forall (fun x => (x < 127)%N) string_printable).
  { unfold string_printable. repeat constructor. }
  rewrite Forall_forall in Hall. apply Hall. by apply list_elem_of_In.
Qed.

Ltac settle_ranges cp :=
  repeat match goal with
  | |- context [in_range cp (?a, ?b)] =>
      first [ rewrite (proj2 (in_range_true cp a b)) by lia
            | rewrite (proj2 (in_range_false cp a b)) by lia ]
  end.

(** The ranges of the table are pairwise disjoint and the printable ASCII
    characters lie in the ranges of "en": a character in a range declared
    for [lang] is counted for [lang]. *)
Lemma in_lang_char_lang lang cp : in_lang lang cp = true -> _char_lang cp = Some lang.
Proof.
  unfold in_lang. intros H.
  apply existsb_exists in H as ([l ranges] & Hin & H).
  apply andb_true_iff in H as [Hl Hr]. apply pystr_eqb_eq in Hl as <-.
  unfold _char_lang. destruct (_ASCII cp) eqn:EA.
  - apply _ASCII_below in EA.
    unfold UNICODE_RANGES in Hin. simpl in Hin.
    repeat (destruct Hin as [Hin|Hin];
            [ inversion Hin; subst l ranges; clear Hin;
              cbn [existsb] in Hr; rewrite ?orb_false_r in Hr;
              first [ reflexivity
                    | exfalso; apply in_range_true in Hr; lia
                    | exfalso; apply orb_true_iff in Hr as [Hr|Hr];
                      apply in_range_true in Hr; lia ] | ]).
    destruct Hin.
  - unfold UNICODE_RANGES in Hin |- *. simpl in Hin.
    repeat (destruct Hin as [Hin|Hin];
            [ inversion Hin; subst l ranges; clear Hin;
              cbn [existsb] in Hr; rewrite ?orb_false_r in Hr;
              try apply orb_true_iff in Hr;
              cbn [first_lang existsb];
              try (apply in_range_true in Hr);
              try (destruct Hr as [Hr|Hr]; apply in_range_true in Hr);
              settle_ranges cp; reflexivity | ]).
    destruct Hin.
Qed.

Lemma in_lang_nonempty lang cp : in_lang lang cp = true -> lang <> [].
Proof.
  unfold in_lang. intros H.
  apply existsb_exists in H as ([l ranges] & Hin & H).
  apply andb_true_iff in H as [Hl _]. apply pystr_eqb_eq in Hl as <-.
  unfold UNICODE_RANGES in Hin. simpl in Hin.
  repeat (destruct Hin as [Hin|Hin]; [inversion Hin; discriminate |]).
  destruct Hin.
Qed.

Lemma in_lang_lang_of lang cp : in_lang lang cp = true -> lang_of cp = Some lang.
Proof.
  intros H. unfold lang_of. rewrite (in_lang_char_lang _ _ H).
  apply in_lang_nonempty in H. by destruct lang.
Qed.

(** ** What the tally holds *)

Lemma occurrences_nil l : occurrences l [] = 0.
Proof. reflexivity. Qed.

Lemma occurrences_snoc_eq l langs : occurrences l (langs ++ [l]) = occurrences l langs + 1.
Proof.
  unfold occurrences. rewrite List.filter_app, length_app. simpl.
  rewrite pystr_eqb_refl. simpl. lia.
Qed.

Lemma occurrences_snoc_ne l k langs : k <> l -> occurrences l (langs ++ [k]) = occurrences l langs.
Proof.
  intros Hne. unfold occurrences. rewrite List.filter_app, length_app. simpl.
  rewrite pystr_eqb_neq by congruence. simpl. lia.
Qed.

Lemma occurrences_nonneg l langs : 0 <= occurrences l langs.
Proof. unfold occurrences. lia. Qed.

Lemma occurrences_pos l langs : l ∈ langs -> 0 < occurrences l langs.
Proof.
  intros Hin. apply list_elem_of_split in Hin as (p & q & ->).
  unfold occurrences. rewrite List.filter_app, length_app. simpl.
  rewrite pystr_eqb_refl. simpl. lia.
Qed.

Lemma tally_get langs l : dict_get (tally [] langs) l 0 = occurrences l langs.
Proof.
  induction langs as [|k langs IH] using rev_ind; [done |].
  rewrite tally_snoc. unfold bump. destruct (decide (k = l)) as [->|Hne].
  - rewrite dict_get_set_eq, IH, occurrences_snoc_eq. done.
  - rewrite dict_get_set_ne by done. rewrite IH. by rewrite occurrences_snoc_ne.
Qed.

Lemma tally_keys_snoc langs k :
  dict_keys (tally [] (langs ++ [k])) =
    dict_keys (tally [] langs) ++ (if bool_decide (k ∈ dict_keys (tally [] langs)) then [] else [k]).
Proof.
  rewrite tally_snoc. unfold bump. case_bool_decide as Hin.
  - rewrite dict_keys_set_old by done. by rewrite app_nil_r.
  - by rewrite dict_keys_set_new.
Qed.

Lemma tally_keys langs l : l ∈ dict_keys (tally [] langs) <-> l ∈ langs.
Proof.
  revert l. induction langs as [|k langs IH] using rev_ind; intros l.
  - simpl. split; intros H; by apply elem_of_nil in H.
  - rewrite tally_keys_snoc, !elem_of_app, IH. case_bool_decide as Hin.
    + apply IH in Hin. rewrite list_elem_of_singleton. split.
      * intros [H|H]; [by left | by apply elem_of_nil in H].
      * intros [H|H]; [by left | left; by subst].
    + tauto.
Qed.

(** The keys stand in the order in which the languages are first counted. *)
Lemma tally_keys_order langs : forall pre w post l,
  dict_keys (tally [] langs) = pre ++ w :: post -> l ∈ post ->
  exists p q, langs = p ++ w :: q /\ l ∉ p.
Proof.
  induction langs as [|k langs IH] using rev_ind; intros pre w post l Hk Hl.
  - simpl in Hk. by destruct pre.
  - rewrite tally_keys_snoc in Hk. case_bool_decide as Hin.
    + rewrite app_nil_r in Hk. destruct (IH _ _ _ _ Hk Hl) as (p & q & -> & Hp).
      exists p, (q ++ [k]). by rewrite <- app_assoc.
    + destruct (decide (post = [])) as [->|Hpost]; [by apply elem_of_nil in Hl |].
      destruct (exists_last Hpost) as (post' & x & ->).
      rewrite app_comm_cons, app_assoc in Hk.
      apply app_inj_tail in Hk as [Hk <-].
      apply elem_of_app in Hl as [Hl|Hl].
      * destruct (IH _ _ _ _ Hk Hl) as (p & q & -> & Hp).
        exists p, (q ++ [k]). by rewrite <- app_assoc.
      * apply list_elem_of_singleton in Hl as ->.
        assert (Hw : w ∈ langs).
        { apply tally_keys. rewrite Hk. apply elem_of_app. right. left. }
        apply list_elem_of_split in Hw as (p & q & ->).
        exists p, (q ++ [k]). split; [by rewrite <- app_assoc |].
        intros Hp. apply Hin. apply tally_keys. apply elem_of_app. by left.
Qed.

(** ** The maximum *)

Lemma max_from_spec f rest : forall best,
  let w := max_from f best rest in
  exists pre post, best :: rest = pre ++ w :: post /\
    (forall x, x ∈ pre -> f x < f w) /\ (forall x, x ∈ post -> f x <= f w).
Proof.
  induction rest as [|k rest IH]; intros best; simpl.
  - exists [], []. split; [done |]. split; intros x Hx; by apply elem_of_nil in Hx.
  - destruct (f best <? f k) eqn:E.
    + apply Z.ltb_lt in E. destruct (IH k) as (pre & post & Heq & Hpre & Hpost).
      exists (best :: pre), post. split; [by rewrite Heq |]. split; [|done].
      intros x Hx. apply elem_of_cons in Hx as [->|Hx]; [|by apply Hpre].
      destruct pre as [|y pre].
      * injection Heq as Hw _. rewrite <- Hw. done.
      * injection Heq as <- _. specialize (Hpre k ltac:(left)). lia.
    + apply Z.ltb_ge in E. destruct (IH best) as (pre & post & Heq & Hpre & Hpost).
      destruct pre as [|y pre].
      * injection Heq as Hw Hrest. exists [], (k :: post).
        split; [by rewrite <- Hw, Hrest |]. split.
        -- intros x Hx. by apply elem_of_nil in Hx.
        -- intros x Hx. rewrite <- Hw. apply elem_of_cons in Hx as [->|Hx]; [done |].
           rewrite Hw. by apply Hpost.
      * injection Heq as <- Hrest. exists (best :: k :: pre), post.
        split; [simpl; do 2 f_equal; exact Hrest |]. split; [|done].
        intros x Hx. apply elem_of_cons in Hx as [->|Hx]; [apply Hpre; left |].
        apply elem_of_cons in Hx as [->|Hx].
        -- specialize (Hpre best ltac:(left)). lia.
        -- apply Hpre. by right.
Qed.

(** ** [detect] on a token that is not in the cache *)

Lemma detect_scan_tally self t :
  detect_scan self t =
    let counts := tally [] (counted self t) in
    let total := Z.of_nat (length (sampled self t)) in
    match dict_keys counts with
    | [] => ((default_code self, 0%Q), total)
    | k :: ks =>
        let winner := max_from (fun l => dict_get counts l 0) k ks in
        ((winner, ratio (dict_get counts winner 0) total), total)
    end.
Proof. unfold detect_scan. rewrite scan_take. reflexivity. Qed.

Lemma detect_run_miss self t :
  t <> [] -> _cache self !! t = None -> detect_run self (Some t) = detect_scan self t.
Proof. intros Ht Hc. destruct t; [done |]. simpl. by rewrite Hc. Qed.

Lemma occurrences_absent l langs : l ∉ langs -> occurrences l langs = 0.
Proof.
  intros Hl. induction langs as [|k langs IH] using rev_ind; [done |].
  rewrite occurrences_snoc_ne.
  - apply IH. intros H. apply Hl. apply elem_of_app. by left.
  - intros ->. apply Hl. apply elem_of_app. right. left.
Qed.

Lemma detect_scan_nothing self t :
  counted self t = [] ->
  detect_scan self t = ((default_code self, 0%Q), Z.of_nat (length (sampled self t))).
Proof. intros H. rewrite detect_scan_tally, H. reflexivity. Qed.

(** The winner has the highest count, and every other language with that
    count is first counted after the winner is. *)
Lemma detect_scan_winner self t :
  counted self t <> [] ->
  exists w,
    detect_scan self t =
      ((w, ratio (occurrences w (counted self t)) (Z.of_nat (length (sampled self t)))),
       Z.of_nat (length (sampled self t))) /\
    w ∈ counted self t /\
    (forall l, occurrences l (counted self t) <= occurrences w (counted self t)) /\
    (forall l, l <> w -> l ∈ counted self t ->
       occurrences l (counted self t) = occurrences w (counted self t) ->
       exists p q, counted self t = p ++ w :: q /\ l ∉ p).
Proof.
  intros Hne. rewrite detect_scan_tally. cbv zeta.
  set (langs := counted self t) in *.
  destruct (dict_keys (tally [] langs)) as [|k ks] eqn:Hkeys.
  { destruct langs as [|l langs]; [done |].
    assert (H : l ∈ dict_keys (tally [] (l :: langs))) by (apply tally_keys; left).
    rewrite Hkeys in H. by apply elem_of_nil in H. }
  destruct (max_from_spec (fun l => dict_get (tally [] langs) l 0) ks k)
    as (pre & post & Hsplit & Hpre & Hpost).
  set (w := max_from _ k ks) in *.
  assert (Hf : forall l, dict_get (tally [] langs) l 0 = occurrences l langs)
    by (intros l; apply tally_get).
  assert (Hw : w ∈ langs).
  { apply tally_keys. rewrite Hkeys, Hsplit. apply elem_of_app. right. left. }
  exists w. rewrite Hf. split; [done |]. split; [done |]. split.
  - intros l. destruct (decide (l ∈ langs)) as [Hl|Hl].
    + apply tally_keys in Hl. rewrite Hkeys, Hsplit in Hl.
      apply elem_of_app in Hl as [Hl|Hl].
      * specialize (Hpre l Hl). simpl in Hpre. rewrite !Hf in Hpre. lia.
      * apply elem_of_cons in Hl as [->|Hl]; [lia |].
        specialize (Hpost l Hl). simpl in Hpost. by rewrite !Hf in Hpost.
    + rewrite (occurrences_absent _ _ Hl). apply occurrences_nonneg.
  - intros l Hlw Hl Htie. apply tally_keys in Hl. rewrite Hkeys, Hsplit in Hl.
    apply elem_of_app in Hl as [Hl|Hl].
    + specialize (Hpre l Hl). simpl in Hpre. rewrite !Hf in Hpre. lia.
    + apply elem_of_cons in Hl as [->|Hl]; [done |].
      apply (tally_keys_order langs pre w post l); [by rewrite Hkeys, Hsplit | done].
Qed.

Lemma ratio_all k : 0 < k -> ratio k k = 1%Q.
Proof.
  intros Hk. unfold ratio. change 1%Q with (Qred 1). apply Qred_complete.
  unfold Qeq. simpl. rewrite Z2Pos.id by done. lia.
Qed.

Lemma occurrences_replicate l n : occurrences l (replicate n l) = Z.of_nat n.
Proof.
  unfold occurrences. f_equal. induction n as [|n IH]; [done |].
  simpl. rewrite pystr_eqb_refl. simpl. by rewrite IH.
Qed.

Lemma omap_lang_of_all A cps :
  Forall (fun cp => lang_of cp = Some A) cps -> omap lang_of cps = replicate (length cps) A.
Proof.
  induction 1 as [|cp cps Hcp _ IH]; [done |].
  change (omap lang_of (cp :: cps))
    with (match lang_of cp with Some y => y :: omap lang_of cps | None => omap lang_of cps end).
  rewrite Hcp, IH. done.
Qed.

(** When every inspected character is counted for [A], the answer is
    [A] with score [1.0]. *)
Lemma detect_scan_uniform self t A :
  sampled self t <> [] ->
  Forall (fun cp => lang_of cp = Some A) (sampled self t) ->
  detect_scan self t = ((A, 1%Q), Z.of_nat (length (sampled self t))).
Proof.
  intros Hne Hall.
  assert (Hc : counted self t = replicate (length (sampled self t)) A)
    by (unfold counted; by apply omap_lang_of_all).
  assert (Hlen : (0 < length (sampled self t))%nat)
    by (destruct (sampled self t); [done | simpl; lia]).
  destruct (detect_scan_winner self t) as (w & Heq & Hw & _).
  { rewrite Hc. destruct (length (sampled self t)); [lia | done]. }
  rewrite Hc in Hw. apply elem_of_replicate in Hw as [-> _].
  rewrite Heq, Hc, occurrences_replicate, ratio_all by lia. done.
Qed.

Lemma window_pos n total : (1 <= window n total)%nat.
Proof. unfold window. lia. Qed.

Lemma sampled_nonempty self t : _iter_significant t <> [] -> sampled self t <> [].
Proof.
  unfold sampled. pose proof (window_pos (sample_chars self) 0) as Hw.
  destruct (_iter_significant t); [done |].
  destruct (window (sample_chars self) 0); [lia | done].
Qed.

Lemma sampled_elem self t cp : cp ∈ sampled self t -> cp ∈ t /\ significant cp = true.
Proof.
  unfold sampled, _iter_significant. intros H.
  apply elem_of_take in H as (i & H & _).
  apply list_elem_of_lookup_2 in H. apply list_elem_of_In in H.
  apply List.filter_In in H as [H ?]. split; [by apply list_elem_of_In | done].
Qed.

Lemma sampled_length self t :
  Z.of_nat (length (sampled self t)) <= Z.max 1 (sample_chars self).
Proof.
  unfold sampled. rewrite length_take. unfold window. lia.
Qed.

Lemma sampled_prefix self pre suf :
  1 <= sample_chars self ->
  Z.of_nat (length (_iter_significant pre)) = sample_chars self ->
  sampled self (pre ++ suf) = _iter_significant pre.
Proof.
  intros Hn Hlen. unfold sampled, _iter_significant.
  rewrite List.filter_app. apply take_app_length'.
  unfold window. unfold _iter_significant in Hlen. lia.
Qed.

Lemma detect_scan_inspected self t :
  snd (detect_scan self t) = Z.of_nat (length (sampled self t)).
Proof.
  rewrite detect_scan_tally. cbv zeta.
  by destruct (dict_keys (tally [] (counted self t))).
Qed.

Lemma inspected_bound self text :
  0 <= inspected self text <= Z.max 1 (sample_chars self).
Proof.
  unfold inspected, detect_run. destruct text as [[|c t]|]; simpl; try lia.
  destruct (_cache self !! (c :: t)) as [[|c' l]|]; simpl; try lia;
    rewrite detect_scan_inspected; pose proof (sampled_length self (c :: t)); lia.
Qed.

(** ** Ties *)

(** C1 (amended): when a token that is not in the cache has counted
    characters, [detect] returns a language with the highest count, and among
    the languages tied at that count the one whose first counted character
    comes first in the token (the order in which the counters were created),
    not the one that is first in the table; the score is the winner's count
    over the number of inspected characters. *)
Theorem detect_tie_first_counted self t w score :
  t <> [] -> _cache self !! t = None -> counted self t <> [] ->
  detect self (Some t) = (w, score) ->
  (forall l, occurrences l (counted self t) <= occurrences w (counted self t)) /\
  (forall l, l <> w -> l ∈ counted self t ->
     occurrences l (counted self t) = occurrences w (counted self t) ->
     exists p q, counted self t = p ++ w :: q /\ l ∉ p) /\
  score = ratio (occurrences w (counted self t)) (Z.of_nat (length (sampled self t))).
Proof.
  intros Ht Hc Hne Hd. unfold detect in Hd. rewrite detect_run_miss in Hd by done.
  destruct (detect_scan_winner self t Hne) as (w' & Heq & _ & Hmax & Hord).
  rewrite Heq in Hd. simpl in Hd. injection Hd as -> <-. done.
Qed.

Lemma detect_tie_first_counted_witness :
  (forall l, occurrences l (counted plain latin_nagari)
             <= occurrences (py "en") (counted plain latin_nagari)) /\
  (forall l, l <> py "en" -> l ∈ counted plain latin_nagari ->
     occurrences l (counted plain latin_nagari)
       = occurrences (py "en") (counted plain latin_nagari) ->
     exists p q, counted plain latin_nagari = p ++ py "en" :: q /\ l ∉ p) /\
  (1 # 2) = ratio (occurrences (py "en") (counted plain latin_nagari))
                  (Z.of_nat (length (sampled plain latin_nagari))).
Proof.
  apply (detect_tie_first_counted plain latin_nagari (py "en") (1 # 2));
    [discriminate | reflexivity | by vm_compute | reflexivity].
Defined.

(** C1, as stated, fails: "en" and "hi" are tied at three, "hi" is the first
    of the two in the table, and [detect] answers "en". *)
Lemma detect_tie_not_table_order :
  occurrences (py "en") (counted plain latin_nagari) = 3 /\
  occurrences (py "hi") (counted plain latin_nagari) = 3 /\
  highest (counted plain latin_nagari) = 3 /\
  table_order_winner (counted plain latin_nagari) = Some (py "hi") /\
  detect plain (Some latin_nagari) = (py "en", 1 # 2).
Proof. repeat split; reflexivity. Qed.

Example detect_nagari_latin : detect plain (Some nagari_latin) = (py "hi", 1 # 2).
Proof. reflexivity. Qed.

(** ** Tokens without a resolved character *)

(** C2 (amended): a non-empty token that is not in the cache and none of
    whose inspected characters resolves to a language gets
    [(default_code, 0.0)]. *)
Theorem detect_unresolved_default self t :
  t <> [] -> _cache self !! t = None ->
  (forall cp, cp ∈ sampled self t -> _char_lang cp = None) ->
  detect self (Some t) = (default_code self, 0%Q).
Proof.
  intros Ht Hc Hnone. unfold detect. rewrite detect_run_miss by done.
  rewrite detect_scan_nothing; [done |].
  unfold counted. induction (sampled self t) as [|cp cps IH]; [done |].
  change (omap lang_of (cp :: cps))
    with (match lang_of cp with Some y => y :: omap lang_of cps | None => omap lang_of cps end).
  unfold lang_of at 1. rewrite (Hnone cp) by left.
  apply IH. intros cp' H. apply Hnone. by right.
Qed.

Lemma detect_unresolved_default_witness :
  detect plain (Some [0x4E2D; 0x6587]%N) = (default_code plain, 0%Q).
Proof.
  apply detect_unresolved_default; [discriminate | reflexivity |].
  intros cp H. vm_compute in H.
  apply elem_of_cons in H as [->|H]; [reflexivity |].
  apply elem_of_cons in H as [->|H]; [reflexivity |].
  by apply elem_of_nil in H.
Defined.

(** C2, as stated, fails: the digits and the punctuation of ASCII are
    printable, so they resolve to "en" and score [1.0]. *)
Lemma detect_digits_resolved :
  _char_lang 0x32 = Some (py "en") /\
  detect plain (Some (py "2024")) = (py "en", 1%Q) /\
  detect plain (Some (py "!?")) = (py "en", 1%Q) /\
  detect plain (Some (py "2024")) <> (default_code plain, 0%Q).
Proof. repeat split; try reflexivity. discriminate. Qed.

(** ** Cache hits *)



(** An entry whose value is the empty string is no code: [if cached:] takes
    it for a miss and the token is scanned. *)
Lemma detect_empty_cached_code :
  _cache (with_cache {[ py "abc" := [] ]}) !! py "abc" = Some [] /\
  detect (with_cache {[ py "abc" := [] ]}) (Some (py "abc")) = (py "en", 1%Q) /\
  detect (with_cache {[ py "abc" := [] ]}) (Some (py "abc")) <> ([], 1%Q) /\
  inspected (with_cache {[ py "abc" := [] ]}) (Some (py "abc")) = 3.
Proof. repeat split; try reflexivity. discriminate. Qed.

(** ** Tokens of one script *)

(** C6 (amended): a token that is not in the cache, of length at most
    [sample_chars], all of whose characters lie in the ranges declared for
    [L] and at least one of which is significant, gets [(L, 1.0)]. *)
Theorem detect_single_script self t L :
  _cache self !! t = None ->
  Z.of_nat (length t) <= sample_chars self ->
  (forall cp, cp ∈ t -> in_lang L cp = true) ->
  (exists cp, cp ∈ t /\ significant cp = true) ->
  detect self (Some t) = (L, 1%Q).
Proof.
  intros Hc _ Hall (cp & Hcp & Hsig).
  assert (Ht : t <> []) by (intros ->; by apply elem_of_nil in Hcp).
  unfold detect. rewrite detect_run_miss by done.
  rewrite (detect_scan_uniform self t L); [done | |].
  - apply sampled_nonempty. intros Hnil.
    assert (H : cp ∈ _iter_significant t).
    { apply list_elem_of_In. apply List.filter_In. split; [by apply list_elem_of_In | done]. }
    rewrite Hnil in H. by apply elem_of_nil in H.
  - apply Forall_forall. intros x Hx. apply sampled_elem in Hx as [Hx _].
    apply in_lang_lang_of. by apply Hall.
Qed.

Lemma detect_single_script_witness :
  detect plain (Some [0x915; 0x92E; 0x932]%N) = (py "hi", 1%Q).
Proof.
  apply detect_single_script; [reflexivity | simpl; lia | | ].
  - intros cp H.
    apply elem_of_cons in H as [->|H]; [reflexivity |].
    apply elem_of_cons in H as [->|H]; [reflexivity |].
    apply elem_of_cons in H as [->|H]; [reflexivity |].
    by apply elem_of_nil in H.
  - exists 0x915%N. split; [left | reflexivity].
Defined.

(** C6, as stated, fails when no character is significant: the space lies
    in the first range of "en", and a token of one space gets
    [(default_code, 0.0)]; so does the empty token. *)
Lemma detect_blank_token :
  in_lang (py "en") 0x20 = true /\
  _cache plain !! [0x20%N] = None /\
  detect plain (Some [0x20%N]) = (py "en", 0%Q) /\
  detect plain (Some [0x20%N]) <> (py "en", 1%Q) /\
  detect plain (Some []) = (py "en", 0%Q).
Proof. repeat split; try reflexivity. discriminate. Qed.

(** ** The bound of the scan *)

(** C4 (amended): with [sample_chars = N >= 1], [detect] inspects at most
    [N] characters of any token.  For a token that is not in the cache, whose
    first [N] significant characters lie in the ranges of [A] and whose
    later characters lie in the ranges of [B], the answer is [(A, 1.0)], [B]
    is not counted, and the answer is the same for every other tail. *)
Theorem detect_bounded_scan self pre suf A B :
  1 <= sample_chars self ->
  _cache self !! (pre ++ suf) = None ->
  Z.of_nat (length (_iter_significant pre)) = sample_chars self ->
  (forall cp, cp ∈ pre -> significant cp = true -> in_lang A cp = true) ->
  (forall cp, cp ∈ suf -> in_lang B cp = true) ->
  A <> B ->
  (forall text, 0 <= inspected self text <= sample_chars self) /\
  detect self (Some (pre ++ suf)) = (A, 1%Q) /\
  occurrences B (counted self (pre ++ suf)) = 0 /\
  (forall suf', _cache self !! (pre ++ suf') = None ->
     detect self (Some (pre ++ suf')) = detect self (Some (pre ++ suf))).
Proof.
  intros Hn Hc Hlen HA _ HAB.
  assert (Hsig : _iter_significant pre <> []).
  { intros H. rewrite H in Hlen. simpl in Hlen. lia. }
  assert (Hpre : pre <> []) by (intros ->; by apply Hsig).
  assert (Hall : Forall (fun cp => lang_of cp = Some A) (_iter_significant pre)).
  { apply Forall_forall. intros cp Hcp. apply list_elem_of_In in Hcp.
    apply List.filter_In in Hcp as [Hcp Hs]. apply in_lang_lang_of.
    apply HA; [by apply list_elem_of_In | done]. }
  assert (Hdet : forall s, _cache self !! (pre ++ s) = None ->
            detect self (Some (pre ++ s)) = (A, 1%Q)).
  { intros s Hs. unfold detect. rewrite detect_run_miss; [| by destruct pre | done].
    rewrite (detect_scan_uniform self (pre ++ s) A); [done | |];
      by rewrite sampled_prefix. }
  split; [| split; [| split]].
  - intros text. pose proof (inspected_bound self text). lia.
  - by apply Hdet.
  - unfold counted. rewrite sampled_prefix by done.
    rewrite (omap_lang_of_all A) by done. apply occurrences_absent.
    intros H. apply elem_of_replicate in H as [H _]. congruence.
  - intros s Hs. by rewrite !Hdet.
Qed.

Lemma detect_bounded_scan_witness :
  (forall text, 0 <= inspected plain text <= sample_chars plain) /\
  detect plain (Some (py "Ramesh" ++ [0x905]%N)) = (py "en", 1%Q) /\
  occurrences (py "hi") (counted plain (py "Ramesh" ++ [0x905]%N)) = 0 /\
  (forall suf', _cache plain !! (py "Ramesh" ++ suf') = None ->
     detect plain (Some (py "Ramesh" ++ suf')) = detect plain (Some (py "Ramesh" ++ [0x905]%N))).
Proof.
  apply (detect_bounded_scan plain (py "Ramesh") [0x905]%N (py "en") (py "hi"));
    [simpl; lia | reflexivity | reflexivity | | | discriminate].
  - intros cp H _. vm_compute in H.
    repeat (apply elem_of_cons in H as [->|H]; [reflexivity |]).
    by apply elem_of_nil in H.
  - intros cp H.
    apply elem_of_cons in H as [->|H]; [reflexivity |].
    by apply elem_of_nil in H.
Defined.

(** C4, as stated, fails in two ways.  A token in the cache gets the cached
    code, whatever its first characters are; and with [sample_chars = 0] one
    character is inspected, because the bound is tested after the count. *)
Lemma detect_scan_bound_exceptions :
  (forallb (in_lang (py "en")) (py "Ramesh") = true /\
   in_lang (py "hi") 0x905 = true /\
   detect (with_cache {[ latin6_nagari := py "hi" ]}) (Some latin6_nagari) = (py "hi", 1%Q)) /\
  (inspected (mkScriptDetector 0 (py "en") None ∅ false) (Some [0x905]%N) = 1 /\
   detect (mkScriptDetector 0 (py "en") None ∅ false) (Some [0x905]%N) = (py "hi", 1%Q)).
Proof. repeat split; reflexivity. Qed.

(** ** Construction *)

(** C3: where the code departs from the claim.  A snapshot that is not UTF-8
    and a snapshot that holds a JSON scalar make the construction raise;
    only a text that is not JSON is ignored. *)
Theorem corrupt_snapshot_raises :
  new_ScriptDetector 6 (py "en") (Some (py "lang_cache.json"))
    {[ py "lang_cache.json" := Undecodable ]} = inl UnicodeDecodeError /\
  new_ScriptDetector 6 (py "en") (Some (py "lang_cache.json"))
    {[ py "lang_cache.json" := Document JNull ]} = inl TypeError /\
  new_ScriptDetector 6 (py "en") (Some (py "lang_cache.json"))
    {[ py "lang_cache.json" := Malformed ]}
    = inr (mkScriptDetector 6 (py "en") (Some (py "lang_cache.json")) ∅ false).
Proof. repeat split; reflexivity. Qed.

(** The part of C3 that holds: a text [json.loads] rejects, like a missing
    file, leaves the cache empty. *)
Lemma new_ScriptDetector_not_json n code path files :
  files !! path = Some Malformed \/ files !! path = None ->
  new_ScriptDetector n code (Some path) files
    = inr (mkScriptDetector n code (Some path) ∅ false).
Proof.
  unfold new_ScriptDetector, __post_init__. simpl.
  intros [H|H]; destruct path; rewrite ?H; reflexivity.
Qed.

Lemma new_ScriptDetector_clean n code path files d :
  new_ScriptDetector n code path files = inr d ->
  sample_chars d = n /\ default_code d = code /\ cache_file d = path /\ _dirty d = false.
Proof.
  unfold new_ScriptDetector, __post_init__. simpl. intros H.
  destruct path as [[|c path]|]; try (injection H as <-; done).
  destruct (files !! (c :: path)) as [f|]; [| injection H as <-; done].
  destruct f as [| |v]; simpl in H; try discriminate; try (injection H as <-; done).
  destruct v; simpl in H; try discriminate. injection H as <-. done.
Qed.

(** ** The cache helpers, step by step *)

Lemma _add_to_cache_run phrase lang st :
  _add_to_cache phrase lang st
    = (inr tt, log (EvInsert phrase lang) (with_self (inserted phrase lang (self st)) st)).
Proof. reflexivity. Qed.

Lemma bind_run {A B} (m : M A) (k : A -> M B) st :
  (m ≫= k) st =
    match m st with
    | (inr a, st') => k a st'
    | (inl e, st') => (inl e, st')
    end.
Proof. reflexivity. Qed.

Lemma write_text_run path snapshot st :
  write_text path snapshot st =
    if unwritable st path then (inl OSError, st)
    else if encodable_cache snapshot
    then (inr tt, log (EvWrite path snapshot)
                    (with_file path (Document (JObject snapshot)) st))
    else (inl UnicodeEncodeError, with_file path Malformed st).
Proof.
  unfold write_text. rewrite bind_run. unfold get.
  destruct (unwritable st path); [reflexivity |].
  destruct (encodable_cache snapshot); reflexivity.
Qed.

(** The four ways of a flush: nothing to do, written, refused by the file
    system, cut short by a text that does not encode. *)
Lemma _flush_cache_cases st :
  (_flush_cache st = (inr tt, st) /\
   (_dirty (self st) = false \/ truthy (cache_file (self st)) = false)) \/
  (exists path, path <> [] /\ cache_file (self st) = Some path /\ _dirty (self st) = true /\
     ((unwritable st path = false /\ encodable_cache (_cache (self st)) = true /\
       _flush_cache st
         = (inr tt, with_self (flushed (self st))
                      (log (EvWrite path (_cache (self st)))
                         (with_file path (Document (JObject (_cache (self st)))) st)))) \/
      (unwritable st path = true /\ _flush_cache st = (inl OSError, st)) \/
      (unwritable st path = false /\ encodable_cache (_cache (self st)) = false /\
       _flush_cache st = (inl UnicodeEncodeError, with_file path Malformed st)))).
Proof.
  unfold _flush_cache. rewrite bind_run. unfold get.
  destruct (_dirty (self st)) eqn:Hd; [| left; by auto].
  destruct (cache_file (self st)) as [[|c path]|] eqn:Hp; try (left; by auto).
  right. exists (c :: path). split; [done |]. split; [done |]. split; [done |].
  rewrite bind_run, write_text_run.
  destruct (unwritable st (c :: path)); [right; left; by auto |].
  destruct (encodable_cache (_cache (self st))); [left | right; right]; by auto.
Qed.

Lemma _flush_cache_skip st :
  _dirty (self st) = false \/ truthy (cache_file (self st)) = false ->
  _flush_cache st = (inr tt, st).
Proof.
  intros H. destruct (_flush_cache_cases st) as [[Hs _]|(path & Hne & Hp & Hd & _)]; [done |].
  destruct H as [H|H]; [congruence |]. rewrite Hp in H. by destruct path.
Qed.

(** Whatever a flush does, it leaves the frames, pandas and the file system's
    refusals alone, keeps the parameters and the cache, and adds at most one
    event, a write of the whole cache. *)
Lemma _flush_cache_spec st :
  exists r st' tail,
    _flush_cache st = (r, st') /\
    frames st' = frames st /\ pd st' = pd st /\ unwritable st' = unwritable st /\
    sample_chars (self st') = sample_chars (self st) /\
    default_code (self st') = default_code (self st) /\
    cache_file (self st') = cache_file (self st) /\
    _cache (self st') = _cache (self st) /\
    history st' = history st ++ tail /\
    (tail = [] \/ (r = inr tt /\ exists path, tail = [EvWrite path (_cache (self st'))])) /\
    (r = inr tt \/ write_failed r).
Proof.
  destruct (_flush_cache_cases st)
    as [[-> _]|(path & _ & _ & _ & [(_ & _ & ->)|[(_ & ->)|(_ & _ & ->)]])].
  - exists (inr tt), st, []. rewrite app_nil_r. repeat split; try done; by left.
  - eexists (inr tt), _, [EvWrite path (_cache (self st))].
    split; [done |]. simpl. repeat split; try done; [right | left]; eauto.
  - exists (inl OSError), st, []. rewrite app_nil_r.
    repeat split; try done; [by left | right; by left].
  - eexists (inl UnicodeEncodeError), _, []. split; [done |]. simpl. rewrite app_nil_r.
    repeat split; try done; [by left | right; by right].
Qed.

Lemma for_each_cons {A} (x : A) xs (body : A -> M unit) st :
  for_each (x :: xs) body st =
    match body x st with
    | (inr _, st') => for_each xs body st'
    | (inl e, st') => (inl e, st')
    end.
Proof. reflexivity. Qed.

(** ** The dirty flag *)

Lemma unsaved_nil : ~ unsaved [].
Proof. intros (pre & p & l & post & H & _). by destruct pre. Qed.

Lemma unsaved_insert h phrase lang : unsaved (h ++ [EvInsert phrase lang]).
Proof. exists h, phrase, lang, []. split; [done | constructor]. Qed.

Lemma unsaved_write h path c : ~ unsaved (h ++ [EvWrite path c]).
Proof.
  intros (pre & p & l & post & H & Hpost).
  destruct (decide (post = [])) as [->|Hne].
  - apply app_inj_tail in H as [_ H]. discriminate.
  - destruct (exists_last Hne) as (post' & e & ->).
    rewrite app_comm_cons, app_assoc in H. apply app_inj_tail in H as [_ <-].
    apply Forall_app in Hpost as [_ Hpost]. inversion Hpost as [|? ? He _]. discriminate.
Qed.

Lemma run_op_tracks o st : dirty_tracks st -> dirty_tracks (snd (run_op o st)).
Proof.
  intros Hinv. destruct o as [phrase lang|]; unfold run_op.
  - rewrite _add_to_cache_run. unfold dirty_tracks. simpl.
    split; [intros _; apply unsaved_insert | done].
  - destruct (_flush_cache_cases st)
      as [[-> _]|(path & _ & _ & _ & [(_ & _ & ->)|[(_ & ->)|(_ & _ & ->)]])];
      try done.
    unfold dirty_tracks. simpl.
    split; [discriminate | intros H; by apply unsaved_write in H].
Qed.

Lemma run_ops_tracks ops : forall st,
  dirty_tracks st -> dirty_tracks (snd (run_ops ops st)).
Proof.
  unfold run_ops. induction ops as [|o ops IH]; intros st Hinv; [done |].
  rewrite for_each_cons. unfold attempt at 1. apply IH. by apply run_op_tracks.
Qed.

(** C8: from construction on, after any sequence of inserts and flushes --
    flushes that raise included, the caller going on after them -- [_dirty]
    is set exactly when an insert occurred after the last flush that wrote
    (after the construction when none did).  Every insert sets the flag, also
    of a pair already present.  With a cache file configured, a flush that
    returns leaves the flag clear, and it returns whenever the file can be
    opened and the cache encoded; a flush that raises leaves the detector as
    it was, dirty.  A flush changes nothing when the flag is clear or no
    cache file is configured. *)
Theorem dirty_flag_invariant n code path files d :
  new_ScriptDetector n code path files = inr d ->
  (forall ops p fr refused,
     let st := snd (run_ops ops (mkState d p fr files refused [])) in
     _dirty (self st) = true <-> unsaved (history st)) /\
  (forall st phrase lang,
     _cache (self st) !! phrase = Some lang ->
     _dirty (self (snd (_add_to_cache phrase lang st))) = true /\
     _cache (self (snd (_add_to_cache phrase lang st))) = _cache (self st)) /\
  (forall st phrase lang, _dirty (self (snd (_add_to_cache phrase lang st))) = true) /\
  (forall st, truthy (cache_file (self st)) = true ->
     fst (_flush_cache st) = inr tt ->
     _dirty (self (snd (_flush_cache st))) = false) /\
  (forall st file, cache_file (self st) = Some file ->
     unwritable st file = false -> encodable_cache (_cache (self st)) = true ->
     fst (_flush_cache st) = inr tt) /\
  (forall st e, fst (_flush_cache st) = inl e ->
     self (snd (_flush_cache st)) = self st /\ _dirty (self st) = true /\
     history (snd (_flush_cache st)) = history st) /\
  (forall st, _dirty (self st) = false \/ truthy (cache_file (self st)) = false ->
     _flush_cache st = (inr tt, st)).
Proof.
  intros Hnew. apply new_ScriptDetector_clean in Hnew as (_ & _ & _ & Hd).
  split; [| split; [| split; [| split; [| split; [| split]]]]].
  - intros ops p fr refused. apply run_ops_tracks. unfold dirty_tracks. simpl. rewrite Hd.
    split; [discriminate | intros H; by apply unsaved_nil in H].
  - intros st phrase lang Hin. rewrite _add_to_cache_run. simpl.
    split; [done | by apply insert_id].
  - intros st phrase lang. by rewrite _add_to_cache_run.
  - intros st Hp. destruct (_flush_cache_cases st)
      as [[-> [Hc|Hc]]|(file & _ & _ & _ & [(_ & _ & ->)|[(_ & ->)|(_ & _ & ->)]])];
      simpl; try done; congruence.
  - intros st file Hf Hw He. destruct (_flush_cache_cases st)
      as [[-> _]|(file' & _ & Hf' & _ & [(_ & _ & ->)|[(Hw' & _)|(_ & He' & _)]])];
      try done; congruence.
  - intros st e. destruct (_flush_cache_cases st)
      as [[-> _]|(file & _ & _ & Hdirty & [(_ & _ & ->)|[(_ & ->)|(_ & _ & ->)]])];
      simpl; try done.
  - apply _flush_cache_skip.
Qed.

Lemma dirty_flag_invariant_witness :
  _dirty (self (snd (run_ops [Insert (py "Ram") (py "en"); Flush; Insert (py "Ram") (py "en")]
                       (mkState (mkScriptDetector 6 (py "en") (Some (py "lang_cache.json")) ∅ false)
                          (Some Pandas2) (fun _ => ∅) ∅ (fun _ => true) [])))) = true <->
  unsaved (history (snd (run_ops [Insert (py "Ram") (py "en"); Flush; Insert (py "Ram") (py "en")]
                       (mkState (mkScriptDetector 6 (py "en") (Some (py "lang_cache.json")) ∅ false)
                          (Some Pandas2) (fun _ => ∅) ∅ (fun _ => true) [])))).
Proof.
  assert (Hnew : new_ScriptDetector 6 (py "en") (Some (py "lang_cache.json")) ∅
                 = inr (mkScriptDetector 6 (py "en") (Some (py "lang_cache.json")) ∅ false))
    by reflexivity.
  destruct (dirty_flag_invariant _ _ _ _ _ Hnew) as [H _].
  apply (H [Insert (py "Ram") (py "en"); Flush; Insert (py "Ram") (py "en")]
           (Some Pandas2) (fun _ => ∅) (fun _ => true)).
Defined.

Example failed_flush_stays_dirty :
  fst (_flush_cache (mkState (mkScriptDetector 6 (py "en") (Some (py "c.json"))
                                {[ [0xD800%N] := py "en" ]} true)
                       None (fun _ => ∅) ∅ (fun _ => false) []))
    = inl UnicodeEncodeError /\
  _dirty (self (snd (_flush_cache
                       (mkState (mkScriptDetector 6 (py "en") (Some (py "c.json"))
                                   {[ [0xD800%N] := py "en" ]} true)
                          None (fun _ => ∅) ∅ (fun _ => false) [])))) = true /\
  disk (snd (_flush_cache
               (mkState (mkScriptDetector 6 (py "en") (Some (py "c.json"))
                           {[ [0xD800%N] := py "en" ]} true)
                  None (fun _ => ∅) ∅ (fun _ => false) []))) !! py "c.json"
    = Some Malformed.
Proof. vm_compute. repeat split; reflexivity. Qed.

(** ** [Series.unique] *)

Lemma unique_from_elem {A} `{EqDecision A} (l : list A) : forall seen v,
  v ∈ unique_from seen l <-> v ∈ l /\ v ∉ seen.
Proof.
  induction l as [|x l IH]; intros seen v; simpl.
  - split; [intros H' | intros [H' _]]; by apply elem_of_nil in H'.
  - case_bool_decide as Hx.
    + rewrite IH, elem_of_cons. split; [tauto |].
      intros [[->|H'] Hs]; [done | tauto].
    + rewrite !elem_of_cons, IH, elem_of_cons. split.
      * intros [->|[H' Hs]]; [tauto |]. split; [tauto |]. intros Hv. apply Hs. by right.
      * intros [[->|H'] Hs]; [tauto |].
        destruct (decide (v = x)) as [->|Hne]; [tauto |].
        right. split; [done |]. intros [?|?]; done.
Qed.

Lemma unique_from_NoDup {A} `{EqDecision A} (l : list A) : forall seen,
  NoDup (unique_from seen l).
Proof.
  induction l as [|x l IH]; intros seen; simpl; [constructor |].
  case_bool_decide as Hx; [apply IH |].
  constructor; [| apply IH].
  intros H'. apply unique_from_elem in H' as [_ H']. apply H'. left.
Qed.

Lemma unique_elem {A} `{EqDecision A} (l : list A) v : v ∈ unique l <-> v ∈ l.
Proof.
  unfold unique. rewrite unique_from_elem. split; [tauto |].
  intros H'. split; [done |]. intros H''. by apply elem_of_nil in H''.
Qed.

Lemma unique_NoDup {A} `{EqDecision A} (l : list A) : NoDup (unique l).
Proof. apply unique_from_NoDup. Qed.

Lemma unique_from_Text l : forall seen,
  unique_from (List.map Text seen) (List.map Text l) = List.map Text (unique_from seen l).
Proof.
  induction l as [|x l IH]; intros seen; [done |]. simpl.
  assert (Hiff : Text x ∈ List.map Text seen <-> x ∈ seen).
  { rewrite !list_elem_of_In, List.in_map_iff. split.
    - intros (y & Hy & Hin). by injection Hy as <-.
    - intros Hin. by exists x. }
  destruct (decide (x ∈ seen)) as [Hx|Hx].
  - rewrite !bool_decide_eq_true_2 by tauto. apply IH.
  - rewrite !bool_decide_eq_false_2 by tauto. simpl. f_equal. apply (IH (x :: seen)).
Qed.

Lemma unique_Text l : unique (List.map Text l) = List.map Text (unique l).
Proof. apply (unique_from_Text l []). Qed.

(** A column without a missing value is the column of its strings. *)
Lemma astype_texts version raw :
  Forall (fun c => is_text (astype_str version c) = true) raw ->
  List.map (astype_str version) raw = List.map Text (texts version raw).
Proof.
  unfold texts. induction 1 as [|c raw Hc _ IH]; [done |].
  change (omap ?f (c :: raw))
    with (match f c with Some y => y :: omap f raw | None => omap f raw end).
  simpl. destruct (astype_str version c); [| done]. simpl. by rewrite IH.
Qed.

(** ** The inner loop *)

Lemma detect_agree d1 d2 t :
  sample_chars d1 = sample_chars d2 -> default_code d1 = default_code d2 ->
  _cache d1 !! t = _cache d2 !! t ->
  detect d1 (Some t) = detect d2 (Some t).
Proof.
  intros Hn Hc Hl. unfold detect, detect_run. destruct t as [|c t].
  - simpl. by rewrite Hc.
  - rewrite Hl. unfold detect_scan. rewrite Hn, Hc. reflexivity.
Qed.

Lemma call_detect_run val st :
  call_detect val st = (inr (detect (self st) (Some val)), log (EvDetect val) st).
Proof. reflexivity. Qed.

Lemma classify_text val rest lang_map auto_cache min_cache_score st :
  classify (Text val :: rest) lang_map auto_cache min_cache_score st =
    classify rest (<[val := fst (detect (self st) (Some val))]> lang_map)
      auto_cache min_cache_score
      (after_detect val (detect (self st) (Some val)) auto_cache min_cache_score st).
Proof.
  unfold after_detect. cbn [classify]. unfold mbind, M_bind. rewrite call_detect_run.
  destruct (detect (self st) (Some val)) as [lang score]. cbn [fst snd].
  destruct (auto_cache && Qle_bool min_cache_score score); reflexivity.
Qed.

Lemma classify_missing rest lang_map auto_cache min_cache_score st :
  classify (Missing :: rest) lang_map auto_cache min_cache_score st = (inl TypeError, st).
Proof. reflexivity. Qed.

(** What a round leaves alone. *)
Lemma after_detect_frame val r auto_cache min_cache_score st :
  let st' := after_detect val r auto_cache min_cache_score st in
  pd st' = pd st /\ frames st' = frames st /\ disk st' = disk st /\
  unwritable st' = unwritable st /\
  sample_chars (self st') = sample_chars (self st) /\
  default_code (self st') = default_code (self st) /\
  cache_file (self st') = cache_file (self st) /\
  (forall k, k <> val -> _cache (self st') !! k = _cache (self st) !! k) /\
  exists evs, history st' = history st ++ EvDetect val :: evs /\
    Forall (fun e => is_write e = false /\ is_assign e = false /\ is_detect e = false) evs.
Proof.
  unfold after_detect. destruct (auto_cache && Qle_bool min_cache_score (snd r)); simpl.
  - repeat split; try done.
    + intros k Hk. by rewrite lookup_insert_ne.
    + exists [EvInsert val (fst r)]. rewrite <- app_assoc. split; [done |].
      by repeat constructor.
  - repeat split; try done. exists []. split; [done | constructor].
Qed.

Lemma filter_none {A} (f : A -> bool) (l : list A) :
  Forall (fun x => f x = false) l -> List.filter f l = [].
Proof. induction 1 as [|x l Hx _ IH]; [done |]. simpl. by rewrite Hx. Qed.

(** The loop on any column: it touches neither the frames nor the disk, and
    records neither a write nor an assignment. *)
Lemma classify_quiet uniques : forall lang_map auto_cache min_cache_score st r st',
  classify uniques lang_map auto_cache min_cache_score st = (r, st') ->
  pd st' = pd st /\ frames st' = frames st /\ disk st' = disk st /\
  unwritable st' = unwritable st /\
  exists evs, history st' = history st ++ evs /\
    Forall (fun e => is_write e = false /\ is_assign e = false) evs.
Proof.
  induction uniques as [|[val|] rest IH]; intros lang_map auto_cache min_cache_score st r st' H.
  - injection H as _ <-. repeat split; try done. exists []. by rewrite app_nil_r.
  - rewrite classify_text in H.
    destruct (after_detect_frame val (detect (self st) (Some val)) auto_cache
                min_cache_score st)
      as (Hpd & Hfr & Hdisk & Hw & _ & _ & _ & _ & evs1 & Hh1 & He1).
    apply IH in H as (Hpd' & Hfr' & Hdisk' & Hw' & evs & Hh & He).
    repeat split; try congruence.
    exists (EvDetect val :: evs1 ++ evs). split.
    + rewrite Hh, Hh1, <- app_assoc. done.
    + constructor; [done |]. apply Forall_app. split; [| done].
      eapply Forall_impl; [exact He1 |]. simpl. tauto.
  - rewrite classify_missing in H. injection H as _ <-.
    repeat split; try done. exists []. by rewrite app_nil_r.
Qed.

(** The loop on strings: it returns, with the language of every string as
    [detect] gives it at the start, after one call of [detect] per string. *)
Lemma classify_spec uniques : forall lang_map auto_cache min_cache_score st,
  NoDup uniques ->
  exists lang_map' st',
    classify (List.map Text uniques) lang_map auto_cache min_cache_score st
      = (inr lang_map', st') /\
    (forall v, v ∈ uniques -> lang_map' !! v = Some (fst (detect (self st) (Some v)))) /\
    (forall v, v ∉ uniques -> lang_map' !! v = lang_map !! v) /\
    sample_chars (self st') = sample_chars (self st) /\
    default_code (self st') = default_code (self st) /\
    (forall k, k ∉ uniques -> _cache (self st') !! k = _cache (self st) !! k) /\
    exists evs, history st' = history st ++ evs /\
      List.filter is_detect evs = List.map EvDetect uniques.
Proof.
  induction uniques as [|val rest IH]; intros lang_map auto_cache min_cache_score st Hnd.
  - exists lang_map, st. repeat split; try done.
    + intros v Hv. by apply elem_of_nil in Hv.
    + exists []. by rewrite app_nil_r.
  - apply NoDup_cons in Hnd as [Hval Hnd]. cbn [List.map]. rewrite classify_text.
    set (r := detect (self st) (Some val)).
    destruct (after_detect_frame val r auto_cache min_cache_score st)
      as (_ & _ & _ & _ & Hn & Hcode & _ & Hcache & evs1 & Hh1 & He1).
    set (st1 := after_detect val r auto_cache min_cache_score st) in *.
    destruct (IH (<[val := fst r]> lang_map) auto_cache min_cache_score st1 Hnd)
      as (lm' & st' & Hrun & Hin & Hout & Hn' & Hcode' & Hcache' & evs & Hh & Hdet).
    exists lm', st'. split; [done |]. split; [| split].
    + intros v Hv. apply elem_of_cons in Hv as [->|Hv].
      * rewrite Hout by done. by rewrite lookup_insert_eq.
      * rewrite Hin by done. do 2 f_equal. apply detect_agree; [done | done |].
        apply Hcache. intros ->. done.
    + intros v Hv. rewrite not_elem_of_cons in Hv. destruct Hv as [Hne Hv].
      rewrite Hout by done. by rewrite lookup_insert_ne.
    + split; [congruence |]. split; [congruence |]. split.
      * intros k Hk. rewrite not_elem_of_cons in Hk. destruct Hk as [Hne Hk].
        rewrite Hcache' by done. by apply Hcache.
      * exists (EvDetect val :: evs1 ++ evs). split.
        -- rewrite Hh, Hh1. rewrite <- app_assoc. done.
        -- simpl. rewrite List.filter_app, Hdet. f_equal.
           rewrite filter_none; [done |].
           eapply Forall_impl; [exact He1 |]. simpl. tauto.
Qed.

(** ** One column *)

Lemma getitem_run df col st :
  getitem df col st =
    match frames st df !! col with
    | Some ser => (inr ser, st)
    | None => (inl (KeyError col), st)
    end.
Proof.
  unfold getitem. rewrite bind_run. unfold get.
  by destruct (frames st df !! col).
Qed.

Lemma annotate_column_missing version df auto_cache min_cache_score col st :
  frames st df !! col = None ->
  annotate_column version df auto_cache min_cache_score col st = (inl (KeyError col), st).
Proof.
  intros H. unfold annotate_column. by rewrite bind_run, getitem_run, H.
Qed.

Lemma annotate_column_run version df auto_cache min_cache_score col st raw :
  frames st df !! col = Some raw ->
  annotate_column version df auto_cache min_cache_score col st =
    match classify (unique (List.map (astype_str version) raw)) ∅ auto_cache
            min_cache_score st with
    | (inr lang_map, st_c) =>
        (inr tt, log (EvAssign df (col ++ py "_lang"))
                   (with_column df (col ++ py "_lang")
                      (series_map lang_map (List.map (astype_str version) raw)) st_c))
    | (inl e, st_c) => (inl e, st_c)
    end.
Proof.
  intros H. unfold annotate_column. rewrite bind_run, getitem_run, H, bind_run.
  destruct (classify _ ∅ auto_cache min_cache_score st) as [[e|lm] st_c]; reflexivity.
Qed.

(** A step of the outer loop, whatever its outcome: no write, one assignment
    when it completes, and no entry of a frame changed but [col_lang]. *)
Lemma annotate_column_quiet version df auto_cache min_cache_score col st r st' :
  annotate_column version df auto_cache min_cache_score col st = (r, st') ->
  pd st' = pd st /\ disk st' = disk st /\ unwritable st' = unwritable st /\
  (forall l n, l <> df \/ n <> col ++ py "_lang" -> frames st' l !! n = frames st l !! n) /\
  (forall n, is_Some (frames st df !! n) -> is_Some (frames st' df !! n)) /\
  (r = inr tt -> is_Some (frames st' df !! (col ++ py "_lang"))) /\
  exists evs, history st' = history st ++ evs /\
    Forall (fun e => is_write e = false) evs /\
    (r = inr tt -> List.filter is_assign evs = [EvAssign df (col ++ py "_lang")]).
Proof.
  intros H. destruct (frames st df !! col) as [raw|] eqn:Hraw.
  - rewrite (annotate_column_run _ _ _ _ _ _ raw) in H by done.
    destruct (classify _ ∅ auto_cache min_cache_score st) as [[e|lm] st_c] eqn:Hc;
      apply classify_quiet in Hc as (Hpd & Hfr & Hdisk & Hw & evs & Hh & He);
      injection H as <- <-.
    + repeat split; try done; try (intros; by rewrite Hfr).
      exists evs. split; [done |]. split; [| done].
      eapply Forall_impl; [exact He |]. simpl. tauto.
    + simpl. rewrite Hfr. repeat split; try done.
      * intros l n Hln. case_bool_decide as Hl; [| done]. subst l.
        rewrite lookup_insert_ne; [done |]. intros <-. destruct Hln; done.
      * intros n Hn. rewrite bool_decide_eq_true_2 by done.
        destruct (decide (n = col ++ py "_lang")) as [->|Hne].
        -- rewrite lookup_insert_eq. by eexists.
        -- by rewrite lookup_insert_ne.
      * intros _. rewrite bool_decide_eq_true_2 by done. rewrite lookup_insert_eq. by eexists.
      * exists (evs ++ [EvAssign df (col ++ py "_lang")]). rewrite Hh, <- app_assoc.
        split; [done |]. split.
        -- apply Forall_app. split; [| by repeat constructor].
           eapply Forall_impl; [exact He |]. simpl. tauto.
        -- intros _. rewrite List.filter_app, filter_none; [done |].
           eapply Forall_impl; [exact He |]. simpl. tauto.
  - rewrite annotate_column_missing in H by done. injection H as <- <-.
    repeat split; try done. exists []. rewrite app_nil_r. by repeat split.
Qed.

Lemma series_map_labels version raw lang_map d :
  Forall (fun c => is_text (astype_str version c) = true) raw ->
  (forall s, s ∈ texts version raw -> lang_map !! s = Some (fst (detect d (Some s)))) ->
  series_map lang_map (List.map (astype_str version) raw) = labels d version raw.
Proof.
  unfold series_map, labels, texts. intros Hall Hlm. rewrite List.map_map.
  apply List.map_ext_in. intros c Hc. destruct (astype_str version c) as [s|] eqn:Hs; [| done].
  rewrite Hlm; [done |]. apply list_elem_of_omap. exists c.
  split; [by apply list_elem_of_In | by rewrite Hs].
Qed.

(** A step on a column without a missing value: it completes, and the labels
    are the answers of [detect], taken with the detector as it is when the
    column is reached. *)
Lemma annotate_column_spec version df auto_cache min_cache_score col st raw :
  frames st df !! col = Some raw ->
  Forall (fun c => is_text (astype_str version c) = true) raw ->
  exists st',
    annotate_column version df auto_cache min_cache_score col st = (inr tt, st') /\
    (forall l n, frames st' l !! n =
       if bool_decide (l = df /\ n = col ++ py "_lang")
       then Some (labels (self st) version raw)
       else frames st l !! n) /\
    exists evs, history st' = history st ++ evs ++ [EvAssign df (col ++ py "_lang")] /\
      List.filter is_detect evs = List.map EvDetect (unique (texts version raw)).
Proof.
  intros Hraw Hall.
  destruct (classify_spec (unique (texts version raw)) ∅ auto_cache min_cache_score st
              (unique_NoDup _))
    as (lm & st_c & Hrun & Hin & _ & _ & _ & _ & evs & Hh & Hdet).
  pose proof Hrun as Hq. apply classify_quiet in Hq as (_ & Hfr & _).
  rewrite (annotate_column_run _ _ _ _ _ _ raw) by done.
  rewrite (astype_texts _ _ Hall), unique_Text, Hrun.
  eexists. split; [done |]. simpl. split.
  - intros l n. rewrite Hfr.
    destruct (decide (l = df)) as [->|Hl].
    + rewrite (bool_decide_eq_true_2 (df = df)) by done.
      destruct (decide (n = col ++ py "_lang")) as [->|Hn].
      * rewrite bool_decide_eq_true_2 by done. rewrite lookup_insert_eq. f_equal.
        rewrite <- (astype_texts _ _ Hall). apply series_map_labels; [done |].
        intros s Hs. apply Hin. by apply unique_elem.
      * rewrite bool_decide_eq_false_2 by tauto. by rewrite lookup_insert_ne.
    + rewrite (bool_decide_eq_false_2 (l = df)) by done.
      by rewrite bool_decide_eq_false_2 by tauto.
  - exists evs. rewrite Hh, <- app_assoc. done.
Qed.

(** ** Caching the answers of [detect] *)

Lemma detect_scan_params d1 d2 t :
  sample_chars d1 = sample_chars d2 -> default_code d1 = default_code d2 ->
  detect_scan d1 t = detect_scan d2 t.
Proof. intros Hn Hc. unfold detect_scan. by rewrite Hn, Hc. Qed.

(** Caching for [v] the language [detect] gives it changes no language. *)
Lemma detect_inserted_own d v text :
  fst (detect (inserted v (fst (detect d (Some v))) d) text) = fst (detect d text).
Proof.
  destruct text as [[|c t]|]; try reflexivity.
  destruct (decide (c :: t = v)) as [<-|Hne].
  - unfold detect at 1. unfold detect_run. simpl _cache. rewrite lookup_insert_eq.
    destruct (fst (detect d (Some (c :: t)))) as [|c' l] eqn:Hl; [| done].
    rewrite (detect_scan_params _ d) by done.
    unfold detect in Hl |- *. unfold detect_run in Hl |- *.
    destruct (_cache d !! (c :: t)) as [[|c' l]|]; try done.
  - f_equal. apply detect_agree; [done | done |]. simpl. by rewrite lookup_insert_ne.
Qed.

Lemma evolves_refl st : evolves st st.
Proof. unfold evolves. repeat split; auto. Qed.

Lemma evolves_trans st1 st2 st3 : evolves st1 st2 -> evolves st2 st3 -> evolves st1 st3.
Proof.
  intros (Hn1 & Hc1 & Hf1 & Hd1 & Hs1 & Hk1 & Hdisk1 & Hpd1 & Hw1)
         (Hn2 & Hc2 & Hf2 & Hd2 & Hs2 & Hk2 & Hdisk2 & Hpd2 & Hw2).
  unfold evolves.
  split; [congruence |]. split; [congruence |]. split; [congruence |].
  split; [intros text; by rewrite Hd2, Hd1 |].
  split; [destruct Hs2 as [Hs2|Hs2]; [by rewrite Hs2 | by right] |].
  split; [auto |]. split; [congruence |]. split; congruence.
Qed.

Lemma evolves_log e st : evolves st (log e st).
Proof. unfold evolves. simpl. repeat split; auto. Qed.

Lemma evolves_with_column df col ser st : evolves st (with_column df col ser st).
Proof. unfold evolves. simpl. repeat split; auto. Qed.

Lemma after_detect_evolves val auto_cache min_cache_score st :
  evolves st (after_detect val (detect (self st) (Some val)) auto_cache min_cache_score st).
Proof.
  unfold after_detect.
  destruct (auto_cache && Qle_bool min_cache_score (snd (detect (self st) (Some val)))).
  - unfold evolves. simpl. repeat split; auto. intros text. apply detect_inserted_own.
  - apply evolves_log.
Qed.

Lemma classify_evolves uniques : forall lang_map auto_cache min_cache_score st r st',
  classify uniques lang_map auto_cache min_cache_score st = (r, st') ->
  evolves st st' /\ (auto_cache = false -> self st' = self st).
Proof.
  induction uniques as [|[val|] rest IH]; intros lang_map auto_cache min_cache_score st r st' H.
  - injection H as _ <-. split; [apply evolves_refl | done].
  - rewrite classify_text in H. apply IH in H as [Hev Hself]. split.
    + eapply evolves_trans; [apply after_detect_evolves | exact Hev].
    + intros ->. by rewrite Hself.
  - rewrite classify_missing in H. injection H as _ <-. split; [apply evolves_refl | done].
Qed.

Lemma annotate_column_evolves version df auto_cache min_cache_score col st r st' :
  annotate_column version df auto_cache min_cache_score col st = (r, st') ->
  evolves st st' /\ (auto_cache = false -> self st' = self st).
Proof.
  intros H. destruct (frames st df !! col) as [raw|] eqn:Hraw.
  - rewrite (annotate_column_run _ _ _ _ _ _ raw) in H by done.
    destruct (classify _ ∅ auto_cache min_cache_score st) as [[e|lm] st_c] eqn:Hc;
      apply classify_evolves in Hc as [Hev Hself]; injection H as _ <-; [done |].
    split; [| done].
    eapply evolves_trans; [exact Hev |].
    eapply evolves_trans; [apply evolves_with_column | apply evolves_log].
  - rewrite annotate_column_missing in H by done. injection H as _ <-.
    split; [apply evolves_refl | done].
Qed.


(** ** The whole frame *)

Lemma annotate_frame_run df columns auto_cache min_cache_score st :
  annotate_frame df columns auto_cache min_cache_score st =
    match pd st with
    | None => (inl ImportError, st)
    | Some version =>
        match for_each columns (annotate_column version df auto_cache min_cache_score) st with
        | (inr _, st1) =>
            match (if auto_cache then _flush_cache else mret tt) st1 with
            | (inr _, st2) => (inr df, st2)
            | (inl e, st2) => (inl e, st2)
            end
        | (inl e, st1) => (inl e, st1)
        end
    end.
Proof.
  unfold annotate_frame. rewrite bind_run. unfold get.
  destruct (pd st) as [version|]; [| reflexivity]. rewrite bind_run.
  destruct (for_each columns _ st) as [[e|[]] st1]; [reflexivity |].
  rewrite bind_run. by destruct ((if auto_cache then _flush_cache else mret tt) st1) as [[e|[]] st2].
Qed.

(** The loop over the columns, whatever its outcome. *)
Lemma for_each_columns_quiet version df auto_cache min_cache_score columns : forall st r st',
  for_each columns (annotate_column version df auto_cache min_cache_score) st = (r, st') ->
  evolves st st' /\ (auto_cache = false -> self st' = self st) /\
  (forall l n, l <> df \/ n ∉ List.map (fun c => c ++ py "_lang") columns ->
     frames st' l !! n = frames st l !! n) /\
  (forall n, is_Some (frames st df !! n) -> is_Some (frames st' df !! n)) /\
  (r = inr tt -> forall c, c ∈ columns -> is_Some (frames st' df !! (c ++ py "_lang"))) /\
  exists evs, history st' = history st ++ evs /\
    Forall (fun e => is_write e = false) evs /\
    (r = inr tt ->
     List.filter is_assign evs = List.map (fun c => EvAssign df (c ++ py "_lang")) columns).
Proof.
  induction columns as [|col columns IH]; intros st r st' H.
  - injection H as <- <-. split; [apply evolves_refl |]. repeat split; try done.
    + intros _ c Hc. by apply elem_of_nil in Hc.
    + exists []. by rewrite app_nil_r.
  - rewrite for_each_cons in H.
    destruct (annotate_column version df auto_cache min_cache_score col st)
      as [r1 st1] eqn:Hcol.
    destruct (annotate_column_evolves _ _ _ _ _ _ _ _ Hcol) as [Hev1 Hself1].
    destruct (annotate_column_quiet _ _ _ _ _ _ _ _ Hcol)
      as (_ & _ & _ & Hsame1 & Hmono1 & Hnew1 & evs1 & Hh1 & He1 & Hassign1).
    destruct r1 as [e|[]].
    + injection H as <- <-. split; [done |]. split; [done |]. split; [| split; [done |]].
      * intros l n Hln. apply Hsame1. destruct Hln as [?|Hn]; [by left | right].
        intros ->. apply Hn. simpl. left.
      * split; [done |]. exists evs1. by split.
    + destruct (IH _ _ _ H) as (Hev & Hself & Hsame & Hmono & Hnew & evs & Hh & He & Hassign).
      split; [by eapply evolves_trans |]. split; [intros Hac; by rewrite Hself, Hself1 |].
      split; [| split; [| split]].
      * intros l n Hln. rewrite Hsame.
        -- apply Hsame1. destruct Hln as [?|Hn]; [by left | right].
           intros ->. apply Hn. simpl. left.
        -- destruct Hln as [?|Hn]; [by left | right].
           intros Hin. apply Hn. simpl. by right.
      * intros n Hn. by apply Hmono, Hmono1.
      * intros Hr c Hc. apply elem_of_cons in Hc as [->|Hc]; [| by apply Hnew].
        by apply Hmono, Hnew1.
      * exists (evs1 ++ evs). split; [by rewrite Hh, Hh1, <- app_assoc |]. split.
        -- by apply Forall_app.
        -- intros Hr. rewrite List.filter_app, (Hassign Hr), Hassign1; done.
Qed.

(** The final step of [annotate_frame] and [annotate_json]. *)
Lemma final_flush_spec (auto_cache : bool) st1 :
  exists r st2 tail,
    (if auto_cache then _flush_cache else mret tt) st1 = (r, st2) /\
    frames st2 = frames st1 /\ pd st2 = pd st1 /\
    (forall text, fst (detect (self st2) text) = fst (detect (self st1) text)) /\
    (auto_cache = false -> st2 = st1) /\
    history st2 = history st1 ++ tail /\
    (tail = [] \/ (r = inr tt /\ exists path, tail = [EvWrite path (_cache (self st2))])) /\
    (r = inr tt \/ (auto_cache = true /\ write_failed r)).
Proof.
  destruct auto_cache.
  - destruct (_flush_cache_spec st1)
      as (r & st2 & tail & Hrun & Hfr & Hpd & _ & Hn & Hc & _ & Hcache & Hh & Htail & Hr).
    exists r, st2, tail. repeat split; try done.
    + intros [t|]; [| unfold detect; simpl; by rewrite Hc].
      f_equal. apply detect_agree; [done | done | by rewrite Hcache].
    + destruct Hr; [by left | right; by split].
  - exists (inr tt), st1, []. rewrite app_nil_r. repeat split; try done; by left.
Qed.

(** C7: in one call of [annotate_frame] with [auto_cache] the snapshot is
    written at most once, and a write is the last event of the call: it
    comes after the assignment of every requested column, never between
    tokens, values or columns. *)
Theorem flush_once st df columns min_cache_score :
  exists r st' evs tail,
    annotate_frame df columns true min_cache_score st = (r, st') /\
    history st' = history st ++ evs ++ tail /\
    Forall (fun e => is_write e = false) evs /\
    (tail = [] \/
     (exists path, tail = [EvWrite path (_cache (self st'))]) /\ r = inr df /\
     List.filter is_assign evs = List.map (fun c => EvAssign df (c ++ py "_lang")) columns) /\
    (length (List.filter is_write (evs ++ tail)) <= 1)%nat.
Proof.
  rewrite annotate_frame_run. destruct (pd st) as [version|].
  - destruct (for_each columns (annotate_column version df true min_cache_score) st)
      as [r1 st1] eqn:Hfor.
    destruct (for_each_columns_quiet _ _ _ _ _ _ _ _ Hfor)
      as (_ & _ & _ & _ & _ & evs & Hh & He & Hassign).
    destruct r1 as [e|[]].
    + exists (inl e), st1, evs, []. rewrite !app_nil_r, (filter_none _ _ He).
      split; [done |]. split; [done |]. split; [done |].
      split; [by left | simpl; lia].
    + destruct (final_flush_spec true st1)
        as (r & st2 & tail & Hfl & _ & _ & _ & _ & Hh2 & Htail & _).
      rewrite Hfl.
      destruct Htail as [->|(-> & path & ->)].
      * rewrite app_nil_r in Hh2.
        destruct r as [e|[]]; eexists _, st2, evs, []; rewrite Hh2, Hh, !app_nil_r;
          rewrite (filter_none _ _ He);
          (split; [done |]; split; [done |]; split; [done |];
           split; [by left | simpl; lia]).
      * exists (inr df), st2, evs, [EvWrite path (_cache (self st2))].
        rewrite List.filter_app, (filter_none _ _ He).
        split; [done |]. split; [by rewrite Hh2, Hh, <- app_assoc |]. split; [done |].
        split; [| simpl; lia]. right. split; [by exists path |]. split; [done |].
        by apply Hassign.
  - exists (inl ImportError), st, [], []. rewrite !app_nil_r.
    split; [done |]. split; [done |]. split; [constructor |].
    split; [by left | simpl; lia].
Qed.


Lemma lang_suffix_inj (a b : pystr) : a ++ py "_lang" = b ++ py "_lang" -> a = b.
Proof. apply app_inv_tail. Qed.

Lemma labels_text d version raw :
  Forall (fun c => is_text (astype_str version c) = true) raw ->
  Forall (fun c => is_text (astype_str version c) = true) (labels d version raw).
Proof.
  unfold labels. induction 1 as [|x raw Hx _ IH]; [constructor |].
  simpl. constructor; [| done].
  destruct (astype_str version x); [done | discriminate].
Qed.

(** With every requested column readable, the loop over the columns
    returns. *)
Lemma for_each_columns_complete version df auto_cache min_cache_score columns : forall st,
  (forall c, c ∈ columns -> readable version st df c) ->
  exists st', for_each columns (annotate_column version df auto_cache min_cache_score) st
              = (inr tt, st').
Proof.
  induction columns as [|col columns IH]; intros st Hread.
  - by exists st.
  - destruct (Hread col ltac:(left)) as (raw & Hraw & Hall).
    destruct (annotate_column_spec version df auto_cache min_cache_score col st raw Hraw Hall)
      as (st1 & Hrun & Hfr & _).
    rewrite for_each_cons, Hrun. apply IH. intros c Hc.
    destruct (Hread c ltac:(by right)) as (rawc & Hrawc & Hallc).
    unfold readable. rewrite Hfr. case_bool_decide as Hd.
    + eexists. split; [done |]. by apply labels_text.
    + by exists rawc.
Qed.






(** C10: [annotate_frame] works in the frame it is given.  When it returns,
    it returns that frame's reference, and the frame has a column [c_lang]
    for every requested [c].  Whether it returns or raises, the columns that
    are not such a [c_lang] are as before, and no other frame of the store
    is touched.  With every requested column readable the only failure left
    is that of the final write of the cache, and the frame has its label
    columns then too. *)
Theorem annotate_frame_in_place st df columns auto_cache min_cache_score :
  exists r st',
    annotate_frame df columns auto_cache min_cache_score st = (r, st') /\
    (forall x, r = inr x ->
       x = df /\ forall c, c ∈ columns -> is_Some (frames st' df !! (c ++ py "_lang"))) /\
    (forall n, n ∉ List.map (fun c => c ++ py "_lang") columns ->
       frames st' df !! n = frames st df !! n) /\
    (forall l, l <> df -> frames st' l = frames st l) /\
    (forall version, pd st = Some version ->
       (forall c, c ∈ columns -> readable version st df c) ->
       (r = inr df \/ (auto_cache = true /\ write_failed r)) /\
       forall c, c ∈ columns -> is_Some (frames st' df !! (c ++ py "_lang"))).
Proof.
  rewrite annotate_frame_run. destruct (pd st) as [version|] eqn:Hpd.
  - destruct (for_each columns (annotate_column version df auto_cache min_cache_score) st)
      as [r1 st1] eqn:Hfor.
    destruct (for_each_columns_quiet _ _ _ _ _ _ _ _ Hfor)
      as (_ & _ & Hsame & _ & Hnew & _).
    destruct r1 as [e|[]].
    + exists (inl e), st1. split; [done |]. split; [done |].
      split; [intros n Hn; apply Hsame; by right |].
      split; [intros l Hl; apply map_eq; intros n; apply Hsame; by left |].
      intros v Hv Hread. injection Hv as <-.
      destruct (for_each_columns_complete version df auto_cache min_cache_score columns st
                  Hread) as (st1' & Hc). congruence.
    + destruct (final_flush_spec auto_cache st1)
        as (r & st2 & tail & Hfl & Hfr & _ & _ & _ & _ & _ & Hr).
      rewrite Hfl.
      assert (Hrest :
        (forall n, n ∉ List.map (fun c => c ++ py "_lang") columns ->
           frames st2 df !! n = frames st df !! n) /\
        (forall l, l <> df -> frames st2 l = frames st l) /\
        (forall c, c ∈ columns -> is_Some (frames st2 df !! (c ++ py "_lang")))).
      { rewrite Hfr. split; [intros n Hn; apply Hsame; by right |].
        split; [intros l Hl; apply map_eq; intros n; apply Hsame; by left |].
        by apply Hnew. }
      destruct Hrest as (H1 & H2 & H3).
      destruct r as [e|[]].
      * exists (inl e), st2. split; [done |]. split; [done |]. split; [done |].
        split; [done |]. intros v _ _. split; [| done]. right.
        destruct Hr as [Hr|[Hac Hr]]; [done |]. split; [done |].
        destruct Hr as [Hr|Hr]; injection Hr as ->; [by left | by right].
      * exists (inr df), st2. split; [done |].
        split; [intros x Hx; injection Hx as <-; by split |].
        split; [done |]. split; [done |]. intros v _ _. split; [by left | done].
  - exists (inl ImportError), st. split; [done |]. split; [done |]. split; [done |].
    split; [done |]. intros v Hv. discriminate.
Qed.
(** * Further properties of the module *)

(** ** [_char_lang] and the table *)

Lemma first_lang_sound table cp lang :
  first_lang table cp = Some lang ->
  exists ranges, In (lang, ranges) table /\ existsb (in_range cp) ranges = true.
Proof.
  induction table as [|[l ranges] table IH]; simpl; [discriminate |].
  destruct (existsb (in_range cp) ranges) eqn:E.
  - intros H. injection H as <-. exists ranges. by split; [left |].
  - intros H. destruct (IH H) as (r & Hin & Hr). exists r. by split; [right |].
Qed.

Lemma in_lang_intro lang ranges cp :
  In (lang, ranges) UNICODE_RANGES -> existsb (in_range cp) ranges = true ->
  in_lang lang cp = true.
Proof.
  intros Hin Hr. unfold in_lang. apply existsb_exists. exists (lang, ranges).
  split; [done |]. by rewrite pystr_eqb_refl, Hr.
Qed.

Lemma _char_lang_in_lang cp lang : _char_lang cp = Some lang -> in_lang lang cp = true.
Proof.
  unfold _char_lang. destruct (_ASCII cp) eqn:EA.
  - intros H. injection H as <-. apply _ASCII_below in EA.
    apply (in_lang_intro _ [(0x0000, 0x0080)%N; (0x0080, 0x0100)%N]).
    + unfold UNICODE_RANGES. simpl. do 10 right. by left.
    + cbn [existsb]. rewrite (proj2 (in_range_true cp _ _)) by lia. done.
  - intros H. apply first_lang_sound in H as (ranges & Hin & Hr).
    by apply (in_lang_intro _ ranges).
Qed.

(** The answer of [_char_lang] is a language exactly when the character lies
    in a range the table declares for that language: the short cut for
    printable ASCII agrees with the ranges of "en", and no character lies in
    the ranges of two languages, so the order of the table never decides. *)
Theorem char_lang_iff_in_lang cp lang :
  (_char_lang cp = Some lang <-> in_lang lang cp = true) /\
  (forall other, in_lang lang cp = true -> in_lang other cp = true -> other = lang).
Proof.
  split.
  - split; [apply _char_lang_in_lang | apply in_lang_char_lang].
  - intros other H1 H2. apply in_lang_char_lang in H1, H2. congruence.
Qed.

(** Every character below U+0100 -- digits, punctuation, controls and
    Latin-1 included -- is "en"; every character from U+0D80 on is unknown,
    and so are the gaps U+0100..U+05FF, U+0700..U+074F and U+0780..U+08FF. *)
Theorem char_lang_latin_and_unknown cp :
  ((cp < 0x0100)%N -> _char_lang cp = Some (py "en")) /\
  ((0x0D80 <= cp)%N \/ (0x0100 <= cp < 0x0600)%N \/ (0x0700 <= cp < 0x0750)%N
     \/ (0x0780 <= cp < 0x0900)%N -> _char_lang cp = None).
Proof.
  split.
  - intros Hcp. apply in_lang_char_lang.
    apply (in_lang_intro _ [(0x0000, 0x0080)%N; (0x0080, 0x0100)%N]).
    + unfold UNICODE_RANGES. simpl. do 10 right. by left.
    + cbn [existsb]. destruct (decide (cp < 0x80)%N).
      * rewrite (proj2 (in_range_true cp _ _)) by lia. done.
      * rewrite (proj2 (in_range_true cp 0x80 0x100)%N) by lia. apply orb_true_r.
  - intros Hcp. unfold _char_lang. destruct (_ASCII cp) eqn:EA.
    + apply _ASCII_below in EA. lia.
    + unfold UNICODE_RANGES. cbn [first_lang existsb].
      destruct Hcp as [H|[H|[H|H]]]; settle_ranges cp; reflexivity.
Qed.

Lemma char_lang_latin_and_unknown_witness :
  _char_lang 0x37 = Some (py "en") /\ _char_lang 0x4E2D = None.
Proof.
  split.
  - apply (char_lang_latin_and_unknown 0x37). reflexivity.
  - apply (char_lang_latin_and_unknown 0x4E2D). left. discriminate.
Defined.

(** ** The answer of [detect] *)

Lemma occurrences_le_length l langs : occurrences l langs <= Z.of_nat (length langs).
Proof.
  unfold occurrences. pose proof (List.filter_length_le (pystr_eqb l) langs). lia.
Qed.

Lemma counted_le_sampled self t :
  (length (counted self t) <= length (sampled self t))%nat.
Proof.
  unfold counted. induction (sampled self t) as [|cp cps IH]; [done |].
  change (omap lang_of (cp :: cps))
    with (match lang_of cp with Some y => y :: omap lang_of cps | None => omap lang_of cps end).
  destruct (lang_of cp); simpl; lia.
Qed.

Lemma ratio_bounds c total : 0 <= c <= total -> 0 < total -> (0 <= ratio c total <= 1)%Q.
Proof.
  intros Hc Ht. unfold ratio. rewrite Qred_correct. unfold Qle. simpl.
  rewrite Z2Pos.id by done. lia.
Qed.

Lemma detect_scan_cases self t :
  (counted self t = [] /\ fst (detect_scan self t) = (default_code self, 0%Q)) \/
  (exists w, w ∈ counted self t /\
     fst (detect_scan self t)
       = (w, ratio (occurrences w (counted self t)) (Z.of_nat (length (sampled self t))))).
Proof.
  destruct (counted self t) as [|l langs] eqn:Hc.
  - left. by rewrite detect_scan_nothing.
  - right. destruct (detect_scan_winner self t) as (w & Heq & Hw & _); [by rewrite Hc |].
    exists w. rewrite <- Hc. by rewrite Heq.
Qed.

(** The score lies in [0, 1], for every detector and every token. *)
Theorem detect_score_bounds self text : (0 <= snd (detect self text) <= 1)%Q.
Proof.
  unfold detect, detect_run. destruct text as [[|c t]|]; simpl; try done.
  destruct (_cache self !! (c :: t)) as [[|c' l]|]; simpl; try done;
    destruct (detect_scan_cases self (c :: t)) as [[_ ->]|(w & Hw & ->)]; simpl; try done;
    (apply ratio_bounds;
     [ pose proof (occurrences_nonneg w (counted self (c :: t)));
       pose proof (occurrences_le_length w (counted self (c :: t)));
       pose proof (counted_le_sampled self (c :: t)); lia
     | pose proof (occurrences_pos w _ Hw);
       pose proof (occurrences_le_length w (counted self (c :: t)));
       pose proof (counted_le_sampled self (c :: t)); lia ]).
Qed.

Lemma counted_in_table self t w :
  w ∈ counted self t -> w ∈ List.map fst UNICODE_RANGES.
Proof.
  unfold counted. intros H. apply list_elem_of_omap in H as (cp & _ & Hcp).
  unfold lang_of in Hcp. destruct (_char_lang cp) as [[|c l]|] eqn:E; try discriminate.
  injection Hcp as <-. apply _char_lang_in_lang in E. unfold in_lang in E.
  apply existsb_exists in E as ([l' ranges] & Hin & H).
  apply andb_true_iff in H as [Hl _]. apply pystr_eqb_eq in Hl as <-.
  apply list_elem_of_In. by apply (List.in_map fst) in Hin.
Qed.

(** The language [detect] returns is the default code, the code the cache
    holds for the token, or one of the eleven codes of the table. *)
Theorem detect_language_origin self text :
  fst (detect self text) = default_code self \/
  (exists t, text = Some t /\ _cache self !! t = Some (fst (detect self text))) \/
  fst (detect self text) ∈ List.map fst UNICODE_RANGES.
Proof.
  unfold detect, detect_run. destruct text as [[|c t]|]; simpl; try by left.
  destruct (_cache self !! (c :: t)) as [[|c' l]|] eqn:Hc; simpl.
  - destruct (detect_scan_cases self (c :: t)) as [[_ ->]|(w & Hw & ->)]; simpl;
      [by left | right; right; by apply (counted_in_table self (c :: t))].
  - right. left. by exists (c :: t).
  - destruct (detect_scan_cases self (c :: t)) as [[_ ->]|(w & Hw & ->)]; simpl;
      [by left | right; right; by apply (counted_in_table self (c :: t))].
Qed.

(** For a token that is not in the cache the answer depends on the first
    [max(1, sample_chars)] significant characters only: tokens that agree on
    them, whatever blanks, invisible characters or tails they differ in, get
    the same answer. *)
Theorem detect_depends_on_sample self t1 t2 :
  t1 <> [] -> t2 <> [] ->
  _cache self !! t1 = None -> _cache self !! t2 = None ->
  sampled self t1 = sampled self t2 ->
  detect self (Some t1) = detect self (Some t2).
Proof.
  intros H1 H2 Hc1 Hc2 Hs. unfold detect. rewrite !detect_run_miss by done.
  rewrite !detect_scan_tally. unfold counted. by rewrite Hs.
Qed.

Lemma detect_depends_on_sample_witness :
  detect plain (Some (py " Ra me sh ")) = detect plain (Some (py "Rameshwar")).
Proof.
  apply detect_depends_on_sample; [discriminate | discriminate | reflexivity | reflexivity |].
  reflexivity.
Defined.

(** On a token that is not in the cache [detect] inspects as many
    characters as the token has significant ones, up to [sample_chars], and up
    to one when [sample_chars] is below one. *)
Theorem detect_inspected_count self t :
  t <> [] -> _cache self !! t = None ->
  inspected self (Some t)
    = Z.min (Z.max 1 (sample_chars self)) (Z.of_nat (length (_iter_significant t))).
Proof.
  intros Ht Hc. unfold inspected. rewrite detect_run_miss by done.
  rewrite detect_scan_inspected. unfold sampled. rewrite length_take. unfold window. lia.
Qed.

Lemma detect_inspected_count_witness :
  inspected plain (Some (py "Rameshwar Rao"))
    = Z.min (Z.max 1 (sample_chars plain))
            (Z.of_nat (length (_iter_significant (py "Rameshwar Rao")))).
Proof. apply detect_inspected_count; [discriminate | reflexivity]. Defined.

(** A language counted strictly more often than every other one wins,
    wherever its characters stand in the token. *)
Theorem detect_plurality_wins self t l :
  t <> [] -> _cache self !! t = None ->
  (forall l', l' <> l ->
     occurrences l' (counted self t) < occurrences l (counted self t)) ->
  fst (detect self (Some t)) = l.
Proof.
  intros Ht Hc Hmost.
  assert (Hne : counted self t <> []).
  { intros Hnil. specialize (Hmost (0%N :: l)). rewrite Hnil in Hmost.
    assert (0%N :: l <> l) as Hd.
    { intros H. apply (f_equal length) in H. simpl in H. lia. }
    specialize (Hmost Hd). unfold occurrences in Hmost. simpl in Hmost. lia. }
  unfold detect. rewrite detect_run_miss by done.
  destruct (detect_scan_winner self t Hne) as (w & -> & _ & Hmax & _). simpl.
  destruct (decide (w = l)) as [->|Hw]; [done |].
  specialize (Hmost w Hw). specialize (Hmax l). lia.
Qed.

Lemma detect_plurality_wins_witness :
  fst (detect plain (Some [0x905; 0x61; 0x62; 0x906; 0x63]%N)) = py "en".
Proof.
  apply detect_plurality_wins; [discriminate | reflexivity |].
  intros l' Hl'.
  change (counted plain [0x905; 0x61; 0x62; 0x906; 0x63]%N)
    with [py "hi"; py "en"; py "en"; py "hi"; py "en"].
  unfold occurrences. cbn [List.filter].
  rewrite !(pystr_eqb_refl (py "en")).
  rewrite (pystr_eqb_neq l' (py "en")) by done.
  rewrite (pystr_eqb_neq (py "en") (py "hi")) by discriminate.
  destruct (pystr_eqb l' (py "hi")); simpl; lia.
Defined.

(** ** Inserting into the cache *)

(** After [_add_to_cache(phrase, lang)] with a non-empty phrase and code,
    [detect] answers [(lang, 1.0)] for the phrase and what it answered before
    for every other token. *)
Theorem add_to_cache_detect st phrase lang :
  phrase <> [] -> lang <> [] ->
  detect (self (snd (_add_to_cache phrase lang st))) (Some phrase) = (lang, 1%Q) /\
  (forall t, t <> phrase ->
     detect (self (snd (_add_to_cache phrase lang st))) (Some t) = detect (self st) (Some t)).
Proof.
  intros Hp Hl. rewrite _add_to_cache_run. simpl. split.
  - unfold detect, detect_run. destruct phrase; [done |]. simpl.
    rewrite lookup_insert_eq. by destruct lang.
  - intros t Ht. apply detect_agree; [done | done |]. simpl. by rewrite lookup_insert_ne.
Qed.

Lemma add_to_cache_detect_witness :
  detect (self (snd (_add_to_cache (py "Ram") (py "hi") registry))) (Some (py "Ram"))
    = (py "hi", 1%Q) /\
  (forall t, t <> py "Ram" ->
     detect (self (snd (_add_to_cache (py "Ram") (py "hi") registry))) (Some t)
       = detect (self registry) (Some t)).
Proof. apply add_to_cache_detect; discriminate. Defined.


(** ** What a frame leaves behind *)

(** The run of the loop over the columns and of the final flush. *)
Lemma annotate_frame_stages df columns auto_cache min_cache_score st version :
  pd st = Some version ->
  exists r1 st1,
    for_each columns (annotate_column version df auto_cache min_cache_score) st = (r1, st1) /\
    evolves st st1 /\ (auto_cache = false -> self st1 = self st) /\
    match r1 with
    | inl e => annotate_frame df columns auto_cache min_cache_score st = (inl e, st1)
    | inr _ =>
        exists r st2,
          (if auto_cache then _flush_cache else mret tt) st1 = (r, st2) /\
          annotate_frame df columns auto_cache min_cache_score st
            = (match r with inr _ => inr df | inl e => inl e end, st2)
    end.
Proof.
  intros Hpd.
  destruct (for_each columns (annotate_column version df auto_cache min_cache_score) st)
    as [r1 st1] eqn:Hfor.
  destruct (for_each_columns_quiet _ _ _ _ _ _ _ _ Hfor) as (Hev & Hself & _).
  exists r1, st1. split; [done |]. split; [done |]. split; [done |].
  rewrite annotate_frame_run, Hpd, Hfor. destruct r1 as [e|[]]; [done |].
  destruct ((if auto_cache then _flush_cache else mret tt) st1) as [r st2].
  exists r, st2. split; [done |]. by destruct r as [e|[]].
Qed.

Lemma annotate_frame_labels_stable df columns auto_cache min_cache_score st text :
  fst (detect (self (snd (annotate_frame df columns auto_cache min_cache_score st))) text)
    = fst (detect (self st) text).
Proof.
  destruct (pd st) as [version|] eqn:Hpd; [| by rewrite annotate_frame_run, Hpd].
  destruct (annotate_frame_stages df columns auto_cache min_cache_score st version Hpd)
    as (r1 & st1 & _ & Hev & _ & Hrun).
  destruct Hev as (_ & _ & _ & Hdet & _).
  destruct r1 as [e|[]]; [by rewrite Hrun |].
  destruct Hrun as (r & st2 & Hfl & ->). cbn [snd]. rewrite <- Hdet.
  destruct (final_flush_spec auto_cache st1) as (r' & st2' & tail & Hfl' & _ & _ & Hd & _).
  rewrite Hfl in Hfl'. injection Hfl' as _ <-. apply Hd.
Qed.

(** [annotate_frame] never changes the language [detect] gives to a token:
    what it caches is [detect]'s own answer, so only scores can rise. *)
Theorem annotate_frame_keeps_languages df columns auto_cache min_cache_score st text :
  fst (detect (self (snd (annotate_frame df columns auto_cache min_cache_score st))) text)
    = fst (detect (self st) text).
Proof. apply annotate_frame_labels_stable. Qed.

(** Without [auto_cache], [annotate_frame] leaves the detector and the disk
    as they are, whether it returns or raises. *)
Theorem annotate_frame_read_only df columns min_cache_score st :
  self (snd (annotate_frame df columns false min_cache_score st)) = self st /\
  disk (snd (annotate_frame df columns false min_cache_score st)) = disk st.
Proof.
  destruct (pd st) as [version|] eqn:Hpd; [| by rewrite annotate_frame_run, Hpd].
  destruct (annotate_frame_stages df columns false min_cache_score st version Hpd)
    as (r1 & st1 & _ & Hev & Hself & Hrun).
  destruct Hev as (_ & _ & _ & _ & _ & _ & Hdisk & _).
  destruct r1 as [e|[]]; [rewrite Hrun; simpl; auto |].
  destruct Hrun as (r & st2 & Hfl & ->). injection Hfl as <- <-. simpl. auto.
Qed.

(** ** A missing column *)




(** Under pandas 3 a missing value stays missing after [astype(str)], and
    [detect] raises [TypeError] on it: no label column is added. *)
Example annotate_frame_missing_value :
  fst (annotate_frame 7%N [py "Name"] false (95 # 100) registry_nan) = inl TypeError /\
  frames (snd (annotate_frame 7%N [py "Name"] false (95 # 100) registry_nan)) 7%N
    !! py "Name_lang" = None.
Proof. split; vm_compute; reflexivity. Qed.

(** ** The snapshot after a frame *)

(** When [annotate_frame] with [auto_cache] returns and a cache file is
    configured, the detector is clean, no other file has changed, and if the
    detector was dirty or its cache has changed the file holds the whole
    cache. *)
Theorem annotate_frame_saves st df columns min_cache_score path :
  cache_file (self st) = Some path -> path <> [] ->
  fst (annotate_frame df columns true min_cache_score st) = inr df ->
  _dirty (self (snd (annotate_frame df columns true min_cache_score st))) = false /\
  (forall p, p <> path ->
     disk (snd (annotate_frame df columns true min_cache_score st)) !! p = disk st !! p) /\
  (_dirty (self st) = true \/
   _cache (self (snd (annotate_frame df columns true min_cache_score st))) <> _cache (self st) ->
   disk (snd (annotate_frame df columns true min_cache_score st)) !! path
     = Some (Document (JObject
         (_cache (self (snd (annotate_frame df columns true min_cache_score st))))))).
Proof.
  intros Hfile Hpath Hret.
  destruct (pd st) as [version|] eqn:Hpd; [| by rewrite annotate_frame_run, Hpd in Hret].
  destruct (annotate_frame_stages df columns true min_cache_score st version Hpd)
    as (r1 & st1 & _ & Hev & _ & Hrun).
  destruct Hev as (_ & _ & Hf & _ & Hself & Hkeep & Hdisk & _).
  destruct r1 as [e|[]]; [by rewrite Hrun in Hret |].
  destruct Hrun as (r & st2 & Hfl & Hrun). rewrite Hrun in Hret |- *. cbn [fst snd] in *.
  destruct r as [e|[]]; [discriminate |].
  destruct (_flush_cache_cases st1)
    as [[Hs Hwhy]|(path' & _ & Hf' & Hd & [(_ & _ & Hw)|[(_ & Hw)|(_ & _ & Hw)]])];
    rewrite Hfl in *; try discriminate.
  - injection Hs as ->.
    assert (Hclean : _dirty (self st1) = false).
    { destruct Hwhy as [H|H]; [done |]. rewrite Hf, Hfile in H. by destruct path. }
    destruct Hself as [Hself|Hself]; [| congruence].
    split; [done |]. split; [intros p _; by rewrite Hdisk |].
    rewrite Hself. intros [H|H]; [| done]. rewrite Hself in Hclean. congruence.
  - injection Hw as ->. simpl.
    assert (path' = path) as -> by congruence.
    split; [done |]. split.
    + intros p Hp. by rewrite lookup_insert_ne, Hdisk.
    + intros _. by rewrite lookup_insert_eq.
Qed.

Lemma annotate_frame_saves_witness :
  _dirty (self (snd (annotate_frame 7%N [py "Name"] true (95 # 100) unsaved_registry))) = false /\
  (forall p, p <> py "c.json" ->
     disk (snd (annotate_frame 7%N [py "Name"] true (95 # 100) unsaved_registry)) !! p
       = disk unsaved_registry !! p) /\
  (_dirty (self unsaved_registry) = true \/
   _cache (self (snd (annotate_frame 7%N [py "Name"] true (95 # 100) unsaved_registry)))
     <> _cache (self unsaved_registry) ->
   disk (snd (annotate_frame 7%N [py "Name"] true (95 # 100) unsaved_registry)) !! py "c.json"
     = Some (Document (JObject
         (_cache (self (snd (annotate_frame 7%N [py "Name"] true (95 # 100)
                              unsaved_registry))))))).
Proof.
  apply (annotate_frame_saves unsaved_registry 7%N [py "Name"] (95 # 100) (py "c.json"));
    [reflexivity | discriminate | vm_compute; reflexivity].
Defined.

(** ** A second run *)

Lemma lang_suffix_fresh (col : pystr) : col <> col ++ py "_lang".
Proof.
  intros H. apply (f_equal length) in H. rewrite length_app in H. simpl in H. lia.
Qed.

Lemma annotate_frame_single st df col raw version auto_cache min_cache_score :
  pd st = Some version -> frames st df !! col = Some raw ->
  Forall (fun c => is_text (astype_str version c) = true) raw ->
  exists r st',
    annotate_frame df [col] auto_cache min_cache_score st = (r, st') /\
    (r = inr df \/ (auto_cache = true /\ write_failed r)) /\
    pd st' = Some version /\
    forall l n, frames st' l !! n =
      if bool_decide (l = df /\ n = col ++ py "_lang")
      then Some (labels (self st) version raw)
      else frames st l !! n.
Proof.
  intros Hpd Hraw Hall.
  destruct (annotate_column_spec version df auto_cache min_cache_score col st raw Hraw Hall)
    as (st1 & Hrun & Hfr & _).
  destruct (annotate_column_quiet _ _ _ _ _ _ _ _ Hrun) as (Hpd1 & _).
  destruct (final_flush_spec auto_cache st1)
    as (r & st2 & tail & Hfl & Hfr2 & Hpd2 & _ & _ & _ & _ & Hr).
  rewrite annotate_frame_run, Hpd, for_each_cons, Hrun. cbn [for_each].
  unfold mret at 1, M_ret at 1. rewrite Hfl.
  destruct r as [e|[]].
  - exists (inl e), st2. split; [done |]. split; [| split; [congruence | by rewrite Hfr2]].
    right. destruct Hr as [Hr|[Hac Hr]]; [done |]. split; [done |].
    destruct Hr as [Hr|Hr]; injection Hr as ->; [by left | by right].
  - exists (inr df), st2. split; [done |]. split; [by left |].
    split; [congruence | by rewrite Hfr2].
Qed.

(** Running [annotate_frame] on a readable column a second time, whatever
    the options of the two runs, leaves the labels of the first run: the
    cache entries a run adds never change a language.  Each of the two runs
    returns the frame unless its final write of the cache fails. *)
Theorem annotate_frame_twice st df col version auto1 min1 auto2 min2 :
  pd st = Some version -> readable version st df col ->
  (fst (annotate_frame df [col] auto2 min2 (snd (annotate_frame df [col] auto1 min1 st)))
     = inr df \/
   (auto2 = true /\
    write_failed
      (fst (annotate_frame df [col] auto2 min2
              (snd (annotate_frame df [col] auto1 min1 st)))))) /\
  is_Some (frames (snd (annotate_frame df [col] auto1 min1 st)) df !! (col ++ py "_lang")) /\
  frames (snd (annotate_frame df [col] auto2 min2
                 (snd (annotate_frame df [col] auto1 min1 st)))) df !! (col ++ py "_lang")
    = frames (snd (annotate_frame df [col] auto1 min1 st)) df !! (col ++ py "_lang").
Proof.
  intros Hpd (raw & Hraw & Hall).
  pose proof (fun text => annotate_frame_labels_stable df [col] auto1 min1 st text)
    as Hstable.
  destruct (annotate_frame_single st df col raw version auto1 min1 Hpd Hraw Hall)
    as (r1 & st1 & Hrun1 & _ & Hpd1 & Hfr1).
  rewrite Hrun1 in Hstable |- *. cbn [snd] in Hstable |- *.
  assert (Hraw1 : frames st1 df !! col = Some raw).
  { rewrite Hfr1, bool_decide_eq_false_2; [done |].
    intros [_ H]. by apply lang_suffix_fresh in H. }
  destruct (annotate_frame_single st1 df col raw version auto2 min2 Hpd1 Hraw1 Hall)
    as (r2 & st2 & Hrun2 & Hr2 & _ & Hfr2).
  rewrite Hrun2. cbn [fst snd]. split; [done |].
  rewrite Hfr2, Hfr1, !bool_decide_eq_true_2 by done. split; [by eexists |].
  f_equal. unfold labels. apply List.map_ext. intros c.
  destruct (astype_str version c); [| done]. by rewrite Hstable.
Qed.

Lemma annotate_frame_twice_witness :
  (fst (annotate_frame 7%N [py "City"] false (1 # 2)
          (snd (annotate_frame 7%N [py "City"] true (95 # 100) unsaved_registry)))
     = inr 7%N \/
   (false = true /\
    write_failed
      (fst (annotate_frame 7%N [py "City"] false (1 # 2)
              (snd (annotate_frame 7%N [py "City"] true (95 # 100) unsaved_registry)))))) /\
  is_Some (frames (snd (annotate_frame 7%N [py "City"] true (95 # 100) unsaved_registry))
             7%N !! (py "City" ++ py "_lang")) /\
  frames (snd (annotate_frame 7%N [py "City"] false (1 # 2)
                 (snd (annotate_frame 7%N [py "City"] true (95 # 100) unsaved_registry))))
      7%N !! (py "City" ++ py "_lang")
    = frames (snd (annotate_frame 7%N [py "City"] true (95 # 100) unsaved_registry))
        7%N !! (py "City" ++ py "_lang").
Proof.
  apply (annotate_frame_twice unsaved_registry 7%N (py "City") Pandas2 true (95 # 100)
           false (1 # 2)); [reflexivity |].
  exists [CStr [0x92A; 0x941; 0x923; 0x947]%N]. split; [reflexivity |].
  by repeat constructor.
Defined.

(** ** [annotate_json] *)

Lemma annotate_keys_present record k v rest out auto_cache min_cache_score st :
  record !! k = Some v ->
  annotate_keys record (k :: rest) out auto_cache min_cache_score st =
    annotate_keys record rest (<[k ++ py "_lang" := fst (detect (self st) (Some v))]> out)
      auto_cache min_cache_score
      (after_detect v (detect (self st) (Some v)) auto_cache min_cache_score st).
Proof.
  intros Hk. cbn [annotate_keys]. rewrite Hk. cbn [default id].
  unfold mbind, M_bind. rewrite call_detect_run. unfold after_detect.
  destruct (detect (self st) (Some v)) as [lang score]. cbn [fst snd].
  destruct (auto_cache && Qle_bool min_cache_score score); reflexivity.
Qed.

Lemma annotate_keys_absent record k rest out auto_cache min_cache_score st :
  record !! k = None ->
  annotate_keys record (k :: rest) out auto_cache min_cache_score st =
    if auto_cache && Qle_bool min_cache_score 0
    then (inl (KeyError k), log (EvDetect []) st)
    else annotate_keys record rest (<[k ++ py "_lang" := default_code (self st)]> out)
           auto_cache min_cache_score (log (EvDetect []) st).
Proof.
  intros Hk. cbn [annotate_keys]. rewrite Hk. cbn [default].
  unfold mbind, M_bind. rewrite call_detect_run. cbn [detect detect_run fst].
  destruct (auto_cache && Qle_bool min_cache_score 0); reflexivity.
Qed.

(** The loop: the labels are [detect]'s languages for the values of the
    record, taken with the detector as it was at the start. *)
Lemma annotate_keys_spec record auto_cache min_cache_score keys : forall out st r st',
  annotate_keys record keys out auto_cache min_cache_score st = (r, st') ->
  evolves st st' /\
  (auto_cache = false -> self st' = self st) /\
  (auto_cache = false \/ Qle_bool min_cache_score 0 = false \/
   (forall k, k ∈ keys -> is_Some (record !! k)) -> exists out', r = inr out') /\
  (forall out', r = inr out' ->
     (forall k, k ∈ keys ->
        out' !! (k ++ py "_lang")
          = Some (fst (detect (self st) (Some (default [] (record !! k)))))) /\
     (forall n, n ∉ List.map (fun k => k ++ py "_lang") keys -> out' !! n = out !! n)).
Proof.
  induction keys as [|k rest IH]; intros out st r st' H.
  - injection H as <- <-. split; [apply evolves_refl |]. split; [done |].
    split; [by eexists |]. intros out' Hout. injection Hout as <-.
    split; [| done]. intros k Hk. by apply elem_of_nil in Hk.
  - assert (Hstep : exists lab st1,
              evolves st st1 /\ (auto_cache = false -> self st1 = self st) /\
              lab = fst (detect (self st) (Some (default [] (record !! k)))) /\
              ((annotate_keys record rest (<[k ++ py "_lang" := lab]> out) auto_cache
                  min_cache_score st1 = (r, st')) \/
               (record !! k = None /\ auto_cache && Qle_bool min_cache_score 0 = true /\
                r = inl (KeyError k) /\ st' = st1))).
    { destruct (record !! k) as [v|] eqn:Hk.
      - rewrite (annotate_keys_present _ _ v) in H by done.
        exists (fst (detect (self st) (Some v))), 
               (after_detect v (detect (self st) (Some v)) auto_cache min_cache_score st).
        split; [apply after_detect_evolves |]. split; [| split; [done | by left]].
        intros ->. reflexivity.
      - rewrite annotate_keys_absent in H by done.
        exists (default_code (self st)), (log (EvDetect []) st).
        split; [apply evolves_log |]. split; [done |]. split; [done |].
        destruct (auto_cache && Qle_bool min_cache_score 0) eqn:E; [| by left].
        right. by injection H as <- <-. }
    destruct Hstep as (lab & st1 & Hev1 & Hself1 & Hlab & [Hrest|(Hk & Hcond & -> & ->)]).
    + destruct (IH _ _ _ _ Hrest) as (Hev & Hself & Hret & Hout).
      split; [by eapply evolves_trans |]. split; [intros Hac; by rewrite Hself, Hself1 |].
      split.
      * intros Hcond. apply Hret. destruct Hcond as [?|[?|Hall]]; auto.
        right. right. intros k' Hk'. apply Hall. by right.
      * intros out' Hr. destruct (Hout out' Hr) as [Hlabels Hother]. split.
        -- intros k' Hk'. destruct (decide (k' ∈ rest)) as [Hin|Hnin].
           ++ rewrite (Hlabels k' Hin). destruct Hev1 as (_ & _ & _ & Hd & _).
              by rewrite Hd.
           ++ apply elem_of_cons in Hk' as [->|Hk']; [| done].
              rewrite Hother, lookup_insert_eq, Hlab; [done |].
              intros Hin. apply list_elem_of_In, List.in_map_iff in Hin as (k'' & Heq & Hin).
              apply lang_suffix_inj in Heq as ->. by apply Hnin, list_elem_of_In.
        -- intros n Hn. simpl in Hn. apply not_elem_of_cons in Hn as [Hne Hn].
           rewrite Hother by done. by rewrite lookup_insert_ne.
    + apply andb_true_iff in Hcond as [-> Hm].
      split; [done |]. split; [done |]. split; [| done].
      intros [?|[?|Hall]]; try congruence.
      destruct (Hall k ltac:(left)) as [v Hv]. congruence.
Qed.

Lemma annotate_json_run record keys auto_cache min_cache_score st :
  annotate_json record keys auto_cache min_cache_score st =
    match annotate_keys record keys record auto_cache min_cache_score st with
    | (inr out, st1) =>
        match (if auto_cache then _flush_cache else mret tt) st1 with
        | (inr _, st2) => (inr out, st2)
        | (inl e, st2) => (inl e, st2)
        end
    | (inl e, st1) => (inl e, st1)
    end.
Proof.
  unfold annotate_json. rewrite bind_run.
  destruct (annotate_keys _ _ _ _ _ st) as [[e|out] st1]; [done |].
  rewrite bind_run.
  by destruct ((if auto_cache then _flush_cache else mret tt) st1) as [[e|[]] st2].
Qed.

Lemma annotate_json_spec record keys auto_cache min_cache_score st :
  (auto_cache = false \/ Qle_bool min_cache_score 0 = false \/
   (forall k, k ∈ keys -> is_Some (record !! k)) ->
   (exists out, fst (annotate_json record keys auto_cache min_cache_score st) = inr out) \/
   (auto_cache = true /\
    write_failed (fst (annotate_json record keys auto_cache min_cache_score st)))) /\
  (forall out, fst (annotate_json record keys auto_cache min_cache_score st) = inr out ->
     (forall k, k ∈ keys ->
        out !! (k ++ py "_lang")
          = Some (fst (detect (self st) (Some (default [] (record !! k)))))) /\
     (forall n, n ∉ List.map (fun k => k ++ py "_lang") keys -> out !! n = record !! n)).
Proof.
  rewrite annotate_json_run.
  destruct (annotate_keys record keys record auto_cache min_cache_score st)
    as [r st1] eqn:Hkeys.
  destruct (annotate_keys_spec _ _ _ _ _ _ _ _ Hkeys) as (_ & _ & Hret & Hout).
  destruct (final_flush_spec auto_cache st1)
    as (rf & st2 & tail & Hfl & _ & _ & _ & _ & _ & _ & Hr).
  split.
  - intros Hcond. destruct (Hret Hcond) as (out & ->). rewrite Hfl.
    destruct rf as [e|[]]; [right | left; by exists out].
    destruct Hr as [Hr|[Hac Hr]]; [done |]. split; [done |].
    destruct Hr as [Hr|Hr]; injection Hr as ->; [by left | by right].
  - intros out Hr'. destruct r as [e|out']; [done |]. rewrite Hfl in Hr'.
    destruct rf as [e|[]]; [done |]. injection Hr' as <-. by apply Hout.
Qed.

(** When [auto_cache] is off, the threshold is positive, or the record has
    every requested key, [annotate_json] returns, unless with [auto_cache]
    the final write of the cache fails.  What it returns holds, for every
    requested key [k], under [k_lang] the language [detect] gives to
    [record.get(k, "")]; every other entry is the record's.  The labels are
    read off the record passed in, never off a label just added. *)
Theorem annotate_json_labels record keys auto_cache min_cache_score st :
  (auto_cache = false \/ Qle_bool min_cache_score 0 = false \/
   (forall k, k ∈ keys -> is_Some (record !! k)) ->
   (exists out, fst (annotate_json record keys auto_cache min_cache_score st) = inr out) \/
   (auto_cache = true /\
    write_failed (fst (annotate_json record keys auto_cache min_cache_score st)))) /\
  (forall out, fst (annotate_json record keys auto_cache min_cache_score st) = inr out ->
     (forall k, k ∈ keys ->
        out !! (k ++ py "_lang")
          = Some (fst (detect (self st) (Some (default [] (record !! k)))))) /\
     (forall n, n ∉ List.map (fun k => k ++ py "_lang") keys -> out !! n = record !! n)).
Proof. apply annotate_json_spec. Qed.

(** A requested key the record lacks is labelled with the default code in
    what [annotate_json] returns, and without [auto_cache] it does return;
    but with [auto_cache] and a threshold that the score [0.0] reaches,
    [record[k]] raises [KeyError], and nothing is written. *)
Theorem annotate_json_missing_key record before k rest auto_cache min_cache_score st :
  record !! k = None ->
  (forall k', k' ∈ before -> is_Some (record !! k')) ->
  (auto_cache = false \/ Qle_bool min_cache_score 0 = false ->
   ((exists out,
       fst (annotate_json record (before ++ k :: rest) auto_cache min_cache_score st)
         = inr out) \/
    (auto_cache = true /\
     write_failed
       (fst (annotate_json record (before ++ k :: rest) auto_cache min_cache_score st)))) /\
   (forall out,
      fst (annotate_json record (before ++ k :: rest) auto_cache min_cache_score st) = inr out ->
      out !! (k ++ py "_lang") = Some (default_code (self st)))) /\
  (auto_cache = true -> Qle_bool min_cache_score 0 = true ->
   fst (annotate_json record (before ++ k :: rest) auto_cache min_cache_score st)
     = inl (KeyError k) /\
   disk (snd (annotate_json record (before ++ k :: rest) auto_cache min_cache_score st))
     = disk st).
Proof.
  intros Hk Hall. split.
  - intros Hcond.
    destruct (annotate_json_spec record (before ++ k :: rest) auto_cache min_cache_score st)
      as [Hret Hout].
    split; [apply Hret; tauto |]. intros out Hr.
    destruct (Hout out Hr) as [Hlab _]. rewrite Hlab, Hk; [done |].
    apply elem_of_app. right. left.
  - intros -> Hm. rewrite annotate_json_run.
    assert (Hgen : forall keys out st0 r st',
              (forall k', k' ∈ keys -> is_Some (record !! k')) ->
              annotate_keys record (keys ++ k :: rest) out true min_cache_score st0 = (r, st') ->
              r = inl (KeyError k) /\ disk st' = disk st0).
    { induction keys as [|k0 keys IH]; intros out st0 r st' Hkeys H.
      - simpl app in H. rewrite annotate_keys_absent, Hm in H by done.
        by injection H as <- <-.
      - destruct (Hkeys k0 ltac:(left)) as [v Hv].
        rewrite <- app_comm_cons, (annotate_keys_present _ _ v) in H by done.
        apply IH in H as [-> Hd]; [| intros k' Hk'; apply Hkeys; by right].
        split; [done |]. rewrite Hd.
        by destruct (after_detect_frame v (detect (self st0) (Some v)) true min_cache_score st0)
          as (_ & _ & ? & _). }
    destruct (annotate_keys record (before ++ k :: rest) record true min_cache_score st)
      as [r st1] eqn:Hrun.
    by destruct (Hgen _ _ _ _ _ Hall Hrun) as [-> ?].
Qed.

Lemma annotate_json_missing_key_witness :
  (true = false \/ Qle_bool 0 0 = false ->
   ((exists out,
       fst (annotate_json {[ py "Name" := py "Ram" ]} ([py "Name"] ++ py "Age" :: []) true 0
              registry) = inr out) \/
    (true = true /\
     write_failed
       (fst (annotate_json {[ py "Name" := py "Ram" ]} ([py "Name"] ++ py "Age" :: []) true 0
               registry)))) /\
   (forall out,
      fst (annotate_json {[ py "Name" := py "Ram" ]} ([py "Name"] ++ py "Age" :: []) true 0
             registry) = inr out ->
      out !! (py "Age" ++ py "_lang") = Some (default_code (self registry)))) /\
  (true = true -> Qle_bool 0 0 = true ->
   fst (annotate_json {[ py "Name" := py "Ram" ]} ([py "Name"] ++ py "Age" :: []) true 0
          registry) = inl (KeyError (py "Age")) /\
   disk (snd (annotate_json {[ py "Name" := py "Ram" ]} ([py "Name"] ++ py "Age" :: []) true 0
                registry)) = disk registry).
Proof.
  apply (annotate_json_missing_key {[ py "Name" := py "Ram" ]} [py "Name"] (py "Age") []
           true 0 registry); [reflexivity |].
  intros k' Hk'. apply elem_of_cons in Hk' as [->|Hk']; [by eexists |].
  by apply elem_of_nil in Hk'.
Defined.

Example annotate_json_example :
  match fst (annotate_json {[ py "Name" := py "Ram"; py "Name_lang" := [0x915]%N ]}
               [py "Name"; py "Name_lang"; py "Age"] false (95 # 100) registry) with
  | inr out =>
      (out !! py "Name", out !! py "Name_lang", out !! py "Name_lang_lang",
       out !! py "Age_lang")
  | inl _ => (None, None, None, None)
  end
  = (Some (py "Ram"), Some (py "en"), Some (py "hi"), Some (py "en")).
Proof. vm_compute. reflexivity. Qed.

(** [annotate_json] never changes the language [detect] gives to a token,
    and without [auto_cache] it leaves the detector and the disk as they
    are, whether it returns or raises. *)
Theorem annotate_json_detector record keys auto_cache min_cache_score st :
  (forall text,
     fst (detect (self (snd (annotate_json record keys auto_cache min_cache_score st))) text)
       = fst (detect (self st) text)) /\
  (auto_cache = false ->
   self (snd (annotate_json record keys auto_cache min_cache_score st)) = self st /\
   disk (snd (annotate_json record keys auto_cache min_cache_score st)) = disk st).
Proof.
  rewrite annotate_json_run.
  destruct (annotate_keys record keys record auto_cache min_cache_score st)
    as [r st1] eqn:Hkeys.
  destruct (annotate_keys_spec _ _ _ _ _ _ _ _ Hkeys) as (Hev & Hself & _ & _).
  destruct Hev as (_ & _ & _ & Hdet & _ & _ & Hdisk & _).
  destruct r as [e|out]; [by auto |].
  destruct (final_flush_spec auto_cache st1)
    as (rf & st2 & tail & Hfl & _ & _ & Hd & Hoff & _).
  rewrite Hfl.
  assert (Hst : snd (match rf with
                     | inr _ => (inr out, st2)
                     | inl e => (@inl exn (gmap pystr pystr) e, st2)
                     end) = st2) by (by destruct rf as [e|[]]).
  rewrite Hst. split.
  - intros text. by rewrite Hd, Hdet.
  - intros Hac. rewrite (Hoff Hac). by auto.
Qed.
(** ** Full scores *)

Lemma lang_of_char_lang cp w : lang_of cp = Some w <-> _char_lang cp = Some w.
Proof.
  split.
  - unfold lang_of. destruct (_char_lang cp) as [[|c l]|]; try discriminate. done.
  - intros H. by apply in_lang_lang_of, _char_lang_in_lang.
Qed.

Lemma ratio_one c total : 0 < total -> ratio c total = 1%Q -> c = total.
Proof.
  intros Ht H. unfold ratio in H.
  assert (Heq : (c # Z.to_pos total == 1)%Q) by (rewrite <- Qred_correct, H; reflexivity).
  unfold Qeq in Heq. simpl in Heq. rewrite Z2Pos.id in Heq by done. lia.
Qed.

Lemma occurrences_full w langs :
  occurrences w langs = Z.of_nat (length langs) -> forall l, l ∈ langs -> l = w.
Proof.
  unfold occurrences. induction langs as [|a langs IH]; intros H l Hl.
  - by apply elem_of_nil in Hl.
  - simpl in H. pose proof (List.filter_length_le (pystr_eqb w) langs) as Hle.
    destruct (pystr_eqb w a) eqn:E; simpl in H; [| lia].
    apply pystr_eqb_eq in E as <-.
    apply elem_of_cons in Hl as [->|Hl]; [done |]. apply IH; [lia | done].
Qed.

Lemma omap_lang_of_full cps :
  length (omap lang_of cps) = length cps ->
  forall cp, cp ∈ cps -> omap lang_of [cp] <> [].
Proof.
  induction cps as [|a cps IH]; intros H cp Hcp; [by apply elem_of_nil in Hcp |].
  assert (Hle : (length (omap lang_of cps) <= length cps)%nat).
  { clear. induction cps as [|b cps IH]; [done |].
    change (omap lang_of (b :: cps))
      with (match lang_of b with Some y => y :: omap lang_of cps | None => omap lang_of cps end).
    destruct (lang_of b); simpl; lia. }
  change (omap lang_of (a :: cps))
    with (match lang_of a with Some y => y :: omap lang_of cps | None => omap lang_of cps end) in H.
  destruct (lang_of a) as [y|] eqn:Ha; simpl in H; [| lia].
  apply elem_of_cons in Hcp as [->|Hcp]; [| apply IH; [lia | done]].
  change (omap lang_of [a]) with (match lang_of a with Some y => [y] | None => [] end).
  by rewrite Ha.
Qed.

(** On a token that is not in the cache the score is [1.0] for [w] exactly
    when a character was inspected and every inspected character resolves to
    [w]: one unknown or foreign character among them lowers the score. *)
Theorem detect_full_score self t w :
  t <> [] -> _cache self !! t = None ->
  (detect self (Some t) = (w, 1%Q) <->
   sampled self t <> [] /\ forall cp, cp ∈ sampled self t -> _char_lang cp = Some w).
Proof.
  intros Ht Hc. unfold detect. rewrite detect_run_miss by done. split.
  - intros H. destruct (detect_scan_cases self t) as [[_ Heq]|(w' & Hw' & Heq)];
      rewrite Heq in H; [discriminate |].
    injection H as -> Hr.
    pose proof (occurrences_pos w _ Hw') as Hpos.
    pose proof (occurrences_le_length w (counted self t)) as Hle.
    pose proof (counted_le_sampled self t) as Hcs.
    apply ratio_one in Hr; [| lia].
    split; [intros Hnil; rewrite Hnil in Hr; simpl in Hr; lia |].
    intros cp Hcp. apply lang_of_char_lang.
    assert (Hfull : length (omap lang_of (sampled self t)) = length (sampled self t))
      by (unfold counted in *; lia).
    pose proof (omap_lang_of_full _ Hfull cp Hcp) as Hsome.
    change (omap lang_of [cp]) with (match lang_of cp with Some y => [y] | None => [] end)
      in Hsome.
    destruct (lang_of cp) as [y|] eqn:Hy; [| done]. f_equal.
    apply (occurrences_full w (counted self t)); [lia |].
    unfold counted. apply list_elem_of_omap. by exists cp.
  - intros [Hne Hall]. rewrite (detect_scan_uniform self t w); [done | done |].
    apply Forall_forall. intros cp Hcp. by apply lang_of_char_lang, Hall.
Qed.

Lemma detect_full_score_witness :
  detect plain (Some (py "Ram")) = (py "en", 1%Q) <->
  sampled plain (py "Ram") <> [] /\
  forall cp, cp ∈ sampled plain (py "Ram") -> _char_lang cp = Some (py "en").
Proof. apply detect_full_score; [discriminate | reflexivity]. Defined.
